(** * cl-bot: a verification model of the Craigslist crawl pipeline

    The development embeds [src/base.py] (class [CraigslistBase]): the
    filter translation [get_filters], the pagination generator
    [get_results], the row parser [process_row] and the detail enrichment
    [geotag_result] / [include_details] / [parse_attrs].

    Python dictionaries whose iteration order is never observed are [gmap]s
    with string keys; dictionaries that are iterated ([filters], the filter
    tables, the option tables) are association lists in insertion order.
    Exceptions are an explicit error type, and the mutation of the [result]
    dictionary is threaded through a small state-and-error monad. *)

From Stdlib Require Import ZArith Ascii String List Lia.
From stdpp Require Import base option list gmap strings fin_maps.

Local Open Scope string_scope.
Local Open Scope list_scope.
Local Open Scope Z_scope.

(** ** Python string primitives used by the source *)

Module PyStr.

(** [old] is a prefix of [s]. *)
Fixpoint startswith (old s : string) : bool :=
  match old, s with
  | EmptyString, _ => true
  | String a old', String b s' => if Ascii.eqb a b then startswith old' s' else false
  | String _ _, EmptyString => false
  end.

(** [sub in s] for a substring test. *)
Fixpoint contains (sub s : string) : bool :=
  if startswith sub s then true
  else match s with
       | EmptyString => false
       | String _ s' => contains sub s'
       end.

(** [s.replace(old, new)] for a non-empty [old]: occurrences are found
    left to right and do not overlap.  [skip] counts the characters of
    a matched occurrence that are still to be consumed. *)
Fixpoint replace_go (old new : string) (skip : nat) (s : string) : string :=
  match s with
  | EmptyString => EmptyString
  | String c s' =>
      match skip with
      | S k => replace_go old new k s'
      | O =>
          if startswith old s
          then new +:+ replace_go old new (String.length old - 1) s'
          else String c (replace_go old new 0 s')
      end
  end.

Definition replace (old new s : string) : string := replace_go old new 0 s.

(** [s.split(sep)] for a non-empty [sep]; [acc] holds the current piece
    reversed. *)
Fixpoint split_go (sep : string) (skip : nat) (acc : string) (s : string) : list string :=
  match s with
  | EmptyString => [String.rev acc]
  | String c s' =>
      match skip with
      | S k => split_go sep k acc s'
      | O =>
          if startswith sep s
          then String.rev acc :: split_go sep (String.length sep - 1) EmptyString s'
          else split_go sep 0 (String c acc) s'
      end
  end.

Definition split (sep s : string) : list string := split_go sep 0 EmptyString s.

(** The text before the rightmost occurrence of [sep], if there is one. *)
Fixpoint rfind_head (sep s : string) : option string :=
  match s with
  | EmptyString => None
  | String c s' =>
      match rfind_head sep s' with
      | Some h => Some (String c h)
      | None => if startswith sep s then Some EmptyString else None
      end
  end.

(** [s.rsplit(sep, 1)[0]]. *)
Definition rsplit1_head (sep s : string) : string :=
  default s (rfind_head sep s).

(** The text after the leftmost occurrence of [sep], if there is one. *)
Fixpoint find_tail (sep : string) (s : string) : option string :=
  if startswith sep s then Some (String.substring (String.length sep) (String.length s) s)
  else match s with
       | EmptyString => None
       | String _ s' => find_tail sep s'
       end.

(** [s.split(sep, 1)[-1]]. *)
Definition split1_last (sep s : string) : string :=
  default s (find_tail sep s).

(** [s.split(sep)[0]]. *)
Definition split_first (sep s : string) : string :=
  match split sep s with
  | x :: _ => x
  | [] => EmptyString
  end.

(** ASCII white space as [str.strip] sees it (the non-ASCII blanks of
    Unicode are outside a byte-string model). *)
Definition isspace (c : ascii) : bool :=
  let n := nat_of_ascii c in
  ((9 <=? n)%nat && (n <=? 13)%nat) || ((28 <=? n)%nat && (n <=? 32)%nat).

Fixpoint lstrip (s : string) : string :=
  match s with
  | EmptyString => EmptyString
  | String c s' => if isspace c then lstrip s' else s
  end.

Fixpoint rstrip (s : string) : string :=
  match s with
  | EmptyString => EmptyString
  | String c s' =>
      match rstrip s' with
      | EmptyString => if isspace c then EmptyString else String c EmptyString
      | r => String c r
      end
  end.

Definition strip (s : string) : string := rstrip (lstrip s).

(** [s.lower()] on ASCII letters. *)
Definition lower_ascii (c : ascii) : ascii :=
  let n := nat_of_ascii c in
  if ((65 <=? n)%nat && (n <=? 90)%nat) then ascii_of_nat (n + 32) else c.

Fixpoint lower (s : string) : string :=
  match s with
  | EmptyString => EmptyString
  | String c s' => String (lower_ascii c) (lower s')
  end.

Fixpoint join (l : list string) : string :=
  match l with
  | [] => EmptyString
  | x :: l' => x +:+ join l'
  end.

(** Decimal digits of [int(text)]: an optional sign, then digits, with
    single underscores allowed between digits. *)
Definition digit (c : ascii) : option Z :=
  let n := nat_of_ascii c in
  if ((48 <=? n)%nat && (n <=? 57)%nat) then Some (Z.of_nat n - 48) else None.

Fixpoint digits_go (acc : Z) (after_digit : bool) (s : string) : option Z :=
  match s with
  | EmptyString => if after_digit then Some acc else None
  | String c s' =>
      match digit c with
      | Some d => digits_go (10 * acc + d) true s'
      | None =>
          if Ascii.eqb c "_" && after_digit
          then match s' with
               | EmptyString => None
               | String c' _ =>
                   match digit c' with
                   | Some _ => digits_go acc false s'
                   | None => None
                   end
               end
          else None
      end
  end.

(** The blanks that [int] skips around the digits: tab, line feed,
    vertical tab, form feed, carriage return and space. *)
Definition isblank (c : ascii) : bool :=
  let n := nat_of_ascii c in
  ((9 <=? n)%nat && (n <=? 13)%nat) || (n =? 32)%nat.

Fixpoint skip_blanks (s : string) : string :=
  match s with
  | EmptyString => EmptyString
  | String c s' => if isblank c then skip_blanks s' else s
  end.

Fixpoint drop_trailing_blanks (s : string) : string :=
  match s with
  | EmptyString => EmptyString
  | String c s' =>
      match drop_trailing_blanks s' with
      | EmptyString => if isblank c then EmptyString else String c EmptyString
      | r => String c r
      end
  end.

(** [int(text)]: [None] stands for the [ValueError]. *)
Definition int (text : string) : option Z :=
  match drop_trailing_blanks (skip_blanks text) with
  | String "-" s' => Z.opp <$> digits_go 0 false s'
  | String "+" s' => digits_go 0 false s'
  | s => digits_go 0 false s
  end.

(** Truthiness of a string. *)
Definition nonempty (s : string) : bool :=
  match s with EmptyString => false | _ => true end.

End PyStr.

(** ** Values, exceptions and documents *)

(** The exceptions the modelled code can raise. *)
Inductive exn : Type :=
  | KeyError (key : string)
  | AttributeError (attribute : string)
  | UnboundLocalError (name : string)
  | ValueError (msg : string)
  | WebDriverException.

(** The outcome of a call that may raise. *)
Inductive res (A : Type) : Type :=
  | Ok (a : A)
  | Raise (e : exn).
Arguments Ok {A} a.
Arguments Raise {A} e.

(** Hashable scalars: what a caller passes as a filter value or option. *)
Inductive scalar : Type :=
  | SNone
  | SBool (b : bool)
  | SInt (z : Z)
  | SStr (s : string).

(** A filter value or a GET parameter: one scalar or a list of them. *)
Inductive pvalue : Type :=
  | PScalar (a : scalar)
  | PList (l : list scalar).

(** Python truthiness. *)
Definition scalar_truthy (a : scalar) : bool :=
  match a with
  | SNone => false
  | SBool b => b
  | SInt z => negb (z =? 0)
  | SStr s => PyStr.nonempty s
  end.

Definition truthy (v : pvalue) : bool :=
  match v with
  | PScalar a => scalar_truthy a
  | PList l => match l with [] => false | _ => true end
  end.

(** The ["value"] entry of a filter: [None] (pass the user's value
    through), a dict of options (a list filter), or a literal. *)
Inductive spec_value : Type :=
  | SpNone
  | SpDict (valid_options : list (string * scalar))
  | SpLit (v : scalar).

Record filter_spec : Type := {
  url_key : string;
  value : spec_value;
  attr : option string
}.

(** [d.get(key)] / [d[key]] on a dict kept in insertion order. *)
Fixpoint dict_get {A : Type} (key : string) (d : list (string * A)) : option A :=
  match d with
  | [] => None
  | (k, v) :: d' => if String.eqb k key then Some v else dict_get key d'
  end.

Definition dict_keys {A : Type} (d : list (string * A)) : list string := d.*1.

(** What the loggers receive. *)
Inductive log_record : Type :=
  | WarnInvalidOption (opt : scalar) (key : string)
  | WarnInvalidFilter (key : string).

(** A result-row fragment [<li class="cl-search-result">], by what
    [process_row] asks of it. *)
Record row : Type := {
  row_spacer : bool;                         (* div.gallery-card.spacer found *)
  row_attrs : gmap string string;            (* the li's own attributes *)
  row_link : option (gmap string string);    (* attributes of a.main *)
  row_priceinfo : option string;             (* text of span.priceinfo *)
  row_dots : bool;                           (* div.dots found *)
  row_meta : option string                   (* text of div.meta *)
}.

(** The [<ol>] of a search page and the page itself. *)
Record ol_elem : Type := {
  ol_result_count : option string;           (* text of div.result-count *)
  ol_rows : list row
}.

Record page : Type := {
  page_totalcount : option string;           (* text of span.totalcount *)
  page_ol : option ol_elem
}.

(** Children of [section#postingbody]. *)
Inductive body_child : Type :=
  | NavigableString (text : string)
  | Tag (has_attrs : bool) (text : string).

Record info_p : Type := {
  p_text : string;
  p_time : option (gmap string string)       (* attributes of its <time> *)
}.

(** A detail page, by what the enrichment asks of it. *)
Record detail_soup : Type := {
  soup_postingbody : option (list body_child);
  soup_postinginfos : option (list info_p);
  soup_imgs : list (gmap string string);     (* attributes of every <img> *)
  soup_attrgroups : list (list string);      (* span texts per p.attrgroup *)
  soup_mapaddress : option string;
  soup_map : option (gmap string string)     (* attributes of div#map *)
}.

(** What the browser session answers during the contact reveal. *)
Record reveal_outcome : Type := {
  rv_driver_ok : bool;            (* get_driver() and driver.get(url) returned *)
  rv_email_href : option string;  (* href of the mailto link, if reached *)
  rv_handler_ok : bool;           (* the captcha probe in the handler returned *)
  rv_phone : option string        (* text of span.phone, if reached *)
}.

(** Values stored in a [result] dict; [F] is the type of Python floats. *)
Inductive rvalue (F : Type) : Type :=
  | VNone
  | VBool (b : bool)
  | VStr (s : string)
  | VStrs (l : list string)
  | VGeotag (lat lon : F).
Arguments VNone {F}.
Arguments VBool {F} b.
Arguments VStr {F} s.
Arguments VStrs {F} l.
Arguments VGeotag {F} lat lon.

Definition opt_str {F : Type} (o : option string) : rvalue F :=
  match o with
  | Some s => VStr s
  | None => VNone
  end.

(** What a run of the generator does, in order. *)
Inductive event (F : Type) : Type :=
  | EvGet (params : gmap string pvalue)       (* a search-page request *)
  | EvFetchContent (url : string)             (* a detail-page request *)
  | EvLogError (msg : string)
  | EvYield (item : option (gmap string (rvalue F))).
Arguments EvGet {F} params.
Arguments EvFetchContent {F} url.
Arguments EvLogError {F} msg.
Arguments EvYield {F} item.

(** How a run of the generator ends. *)
Inductive ending : Type :=
  | Exhausted
  | Raised (e : exn)
  | OutOfFuel.

(** The class instance together with its collaborators. *)
Record Env (F : Type) : Type := {
  float : string → option F;                   (* float(text); None = ValueError *)
  urljoin : string → string → string;          (* urllib.parse.urljoin *)
  url : string;                                (* self.url *)
  extra_filters : list (string * filter_spec);
  list_filters : list (string * filter_spec);  (* utils.get_list_filters(self.url) *)
  requests_get : gmap string pvalue → option page;
  fetch_content : string → option detail_soup;
  reveal : string → reveal_outcome
}.
Arguments float {F} _ _.
Arguments urljoin {F} _ _ _.
Arguments url {F} _.
Arguments extra_filters {F} _.
Arguments list_filters {F} _.
Arguments requests_get {F} _ _.
Arguments fetch_content {F} _ _.
Arguments reveal {F} _ _.

Definition RESULTS_PER_REQUEST : Z := 100.

Definition base_filters : list (string * filter_spec) :=
  [ ("query", {| url_key := "query"; value := SpNone; attr := None |});
    ("search_titles", {| url_key := "srchType"; value := SpLit (SStr "T"); attr := None |});
    ("has_image", {| url_key := "hasPic"; value := SpLit (SInt 1); attr := None |});
    ("posted_today", {| url_key := "postedToday"; value := SpLit (SInt 1); attr := None |});
    ("bundle_duplicates", {| url_key := "bundleDuplicates"; value := SpLit (SInt 1); attr := None |});
    ("search_distance", {| url_key := "search_distance"; value := SpNone; attr := None |});
    ("zip_code", {| url_key := "postal"; value := SpNone; attr := None |}) ].

Definition sort_by_options : list (string * string) :=
  [ ("newest", "date"); ("price_asc", "priceasc"); ("price_desc", "pricedsc") ].

(** ** The filter model: [get_filters] *)

Section Filters.
Context {F : Type} (E : Env F).

(** [base_filters.get(key) or extra_filters.get(key) or list_filters[key]];
    [None] is the [KeyError] of the last lookup. *)
Definition find_filter (key : string) : option filter_spec :=
  match dict_get key base_filters with
  | Some f => Some f
  | None =>
      match dict_get key (extra_filters E) with
      | Some f => Some f
      | None => dict_get key (list_filters E)
      end
  end.

(** [valid_options[opt]]: the option tables are keyed by strings, so
    any other scalar is a [KeyError] too. *)
Definition lookup_option (valid_options : list (string * scalar)) (opt : scalar) : option scalar :=
  match opt with
  | SStr s => dict_get s valid_options
  | _ => None
  end.

(** The [value = [value]] coercion: a string or a non-iterable becomes
    a one-element list, a list is iterated as it is. *)
Definition force_list (v : pvalue) : list scalar :=
  match v with
  | PScalar a => [a]
  | PList l => l
  end.

(** The inner loop: [options.append(valid_options[opt])], a warning on
    [KeyError]. *)
Fixpoint resolve_options (valid_options : list (string * scalar)) (key : string)
    (opts : list scalar) (options : list scalar) (log : list log_record)
    : list scalar * list log_record :=
  match opts with
  | [] => (options, log)
  | opt :: rest =>
      match lookup_option valid_options opt with
      | Some code => resolve_options valid_options key rest (options ++ [code]) log
      | None => resolve_options valid_options key rest options (log ++ [WarnInvalidOption opt key])
      end
  end.

(** One turn of the outer loop. *)
Definition apply_filter (st : gmap string pvalue * list log_record) (kv : string * pvalue)
    : gmap string pvalue * list log_record :=
  let '(parsed_filters, log) := st in
  let '(key, v) := kv in
  match find_filter key with
  | None => (parsed_filters, log ++ [WarnInvalidFilter key])
  | Some filter_ =>
      match value filter_ with
      | SpNone => (<[url_key filter_ := v]> parsed_filters, log)
      | SpDict valid_options =>
          let '(options, log') := resolve_options valid_options key (force_list v) [] log in
          (<[url_key filter_ := PList options]> parsed_filters, log')
      | SpLit lit =>
          if truthy v
          then (<[url_key filter_ := PScalar lit]> parsed_filters, log)
          else (parsed_filters, log)
      end
  end.

Definition get_filters_log (filters : option (list (string * pvalue)))
    : gmap string pvalue * list log_record :=
  fold_left apply_filter (default [] filters) ({["searchNearby" := PScalar (SInt 1)]}, []).

Definition get_filters (filters : option (list (string * pvalue))) : gmap string pvalue :=
  (get_filters_log filters).1.

End Filters.

(** ** The enrichment monad: a [result] dict mutated in place, with exceptions *)

Definition M (F A : Type) : Type :=
  gmap string (rvalue F) → res A * gmap string (rvalue F).

Definition ret {F A : Type} (a : A) : M F A := λ st, (Ok a, st).

Definition bind {F A B : Type} (m : M F A) (k : A → M F B) : M F B :=
  λ st, match m st with
        | (Ok a, st') => k a st'
        | (Raise e, st') => (Raise e, st')
        end.

Definition raise {F A : Type} (e : exn) : M F A := λ st, (Raise e, st).

(** [result[key] = v]. *)
Definition setitem {F : Type} (key : string) (v : rvalue F) : M F unit :=
  λ st, (Ok tt, <[key := v]> st).

(** [result[key]]. *)
Definition getitem {F : Type} (key : string) : M F (rvalue F) :=
  λ st, match st !! key with
        | Some v => (Ok v, st)
        | None => (Raise (KeyError key), st)
        end.

(** [attrs[key]] on a tag's attribute dict. *)
Definition tag_attr {F : Type} (attrs : gmap string string) (key : string) : M F string :=
  match attrs !! key with
  | Some v => ret v
  | None => raise (KeyError key)
  end.

#[global] Instance M_ret {F : Type} : MRet (M F) := λ A a, ret a.
#[global] Instance M_bind {F : Type} : MBind (M F) := λ A B k m, bind m k.

(** A [for] loop over a list whose body may raise. *)
Fixpoint for_each {F A : Type} (body : A → M F unit) (l : list A) : M F unit :=
  match l with
  | [] => ret tt
  | x :: l' => body x;; for_each body l'
  end.

(** ** Row parser and detail enrichment *)

Section Rows.
Context {F : Type} (E : Env F).

Definition to_float (text : string) : M F F :=
  match float E text with
  | Some x => ret x
  | None => raise (ValueError text)
  end.

Definition geotag_result (soup : detail_soup) : M F unit :=
  match soup_map soup with
  | Some map_ =>
      lat_text ← tag_attr map_ "data-latitude";
      lat ← to_float lat_text;
      lon_text ← tag_attr map_ "data-longitude";
      lon ← to_float lon_text;
      setitem "geotag" (VGeotag lat lon)
  | None => ret tt
  end.

(** [getattr(e, "text", e) for e in body if not getattr(e, "attrs", None)] *)
Definition body_text (body : list body_child) : list string :=
  omap (λ e, match e with
             | NavigableString t => Some t
             | Tag has_attrs t => if has_attrs then None else Some t
             end) body.

(** The click sequence of the contact reveal.  The first [try] stores
    the address or runs the captcha probe; the second stores the
    phone number or only logs. *)
Definition reveal_contact : M F unit :=
  u ← getitem "url";
  match u with
  | VStr u =>
      let rv := reveal E u in
      if rv_driver_ok rv then
        match rv_email_href rv with
        | Some href =>
            setitem "email" (VStr (PyStr.split_first "?" (PyStr.replace "mailto:" EmptyString href)))
        | None => if rv_handler_ok rv then ret tt else raise WebDriverException
        end;;
        match rv_phone rv with
        | Some phone_number => setitem "phone" (VStr phone_number)
        | None => ret tt
        end
      else raise WebDriverException
  | _ => raise WebDriverException
  end.

(** The body of the loop over the [<p>] of [div.postinginfos]. *)
Definition created_of (p : info_p) : M F unit :=
  if PyStr.contains "posted" (p_text p) then
    match p_time p with
    | Some time =>
        dt ← tag_attr time "datetime";
        let created := PyStr.replace "T" " " dt in
        setitem "created" (VStr (PyStr.rsplit1_head ":" created))
    | None => ret tt
    end
  else ret tt.

(** [image_tags[1:] if len(image_tags) > 1 else image_tags] *)
Definition drop_repeated {A : Type} (image_tags : list A) : list A :=
  if (1 <? length image_tags)%nat then drop 1 image_tags else image_tags.

(** The loop that collects the image links; an [<img>] without [src]
    is the [KeyError] that the loop skips. *)
Fixpoint collect_images (image_tags : list (gmap string string)) (images : list string)
    : list string :=
  match image_tags with
  | [] => images
  | img :: rest =>
      match img !! "src" with
      | Some src => collect_images rest (images ++ [PyStr.replace "50x50c" "600x450" src])
      | None => collect_images rest images
      end
  end.

(** The nested loop over the attribute groups. *)
Definition collect_attrs (attrgroups : list (list string)) : list string :=
  filter (λ t, PyStr.nonempty t = true) (PyStr.strip <$> concat attrgroups).

(** [x in s] for a set or list of strings. *)
Definition str_in (x : string) (l : list string) : bool :=
  existsb (String.eqb x) l.

(** [options["value"] != 1] *)
Definition is_binary (v : spec_value) : bool :=
  match v with
  | SpLit (SInt 1) | SpLit (SBool true) => true
  | _ => false
  end.

(** The first key of an option dict that occurs among the attributes. *)
Fixpoint first_option (keys : list string) (attrs_after_colon : list string) : option string :=
  match keys with
  | [] => None
  | option :: rest =>
      if str_in option attrs_after_colon then Some option
      else first_option rest attrs_after_colon
  end.

Definition parse_attrs : M F unit :=
  a ← getitem "attrs";
  match a with
  | VStrs raw =>
      let attrs := PyStr.lower <$> raw in
      for_each (λ '(key, options),
          if is_binary (value options) then
            if str_in (default EmptyString (attr options)) attrs
            then setitem key (VBool true) else ret tt
          else ret tt) (extra_filters E);;
      let attrs_after_colon := PyStr.split1_last ": " <$> raw in
      for_each (λ '(key, options),
          match value options with
          | SpDict valid_options =>
              match first_option (dict_keys valid_options) attrs_after_colon with
              | Some option => setitem key (VStr option)
              | None => ret tt
              end
          | _ => raise (AttributeError "keys")
          end) (list_filters E)
  | _ => raise (AttributeError "lower")
  end.

Definition include_details (soup : detail_soup) : M F unit :=
  match soup_postingbody soup with
  | None => setitem "deleted" (VBool true)
  | Some body =>
      setitem "body" (VStr (PyStr.strip (PyStr.join (body_text body))));;
      reveal_contact;;
      match soup_postinginfos soup with
      | None => raise (AttributeError "find_all")
      | Some ps => for_each created_of ps
      end;;
      setitem "images" (VStrs (collect_images (drop_repeated (soup_imgs soup)) []));;
      let attrs := collect_attrs (soup_attrgroups soup) in
      setitem "attrs" (VStrs attrs);;
      match attrs with
      | [] => ret tt
      | _ => parse_attrs
      end;;
      match soup_mapaddress soup with
      | Some text => setitem "address" (VStr text)
      | None => ret tt
      end
  end.

(** The separator of the meta line, U+00B7 in UTF-8. *)
Definition middle_dot : string :=
  String (ascii_of_nat 194) (String (ascii_of_nat 183) EmptyString).

(** The dict literal of [process_row]. *)
Definition summary (id : string) (repost_of name : option string) (url : string)
    (price : option string) (location : string) (has_pic : bool) : gmap string (rvalue F) :=
  <["id" := VStr id]> (
  <["repost_of" := opt_str repost_of]> (
  <["name" := opt_str name]> (
  <["url" := VStr url]> (
  <["datetime" := VNone]> (
  <["last_updated" := VNone]> (
  <["price" := opt_str price]> (
  <["where" := if PyStr.nonempty location then VStr location else VNone]> (
  <["has_image" := VBool has_pic]> (
  <["geotag" := VNone]> (
  <["deleted" := VBool false]> ∅)))))))))).

(** [process_row]: the events of the call and what it returns or
    raises; [Ok None] is the bare [return] of a spacer row.  The hook
    [customize_result] is off in the base class. *)
Definition process_row (r : row) (geotagged include_details_ : bool)
    : list (event F) * res (option (gmap string (rvalue F))) :=
  if row_spacer r then ([], Ok None)
  else
    match row_attrs r !! "data-pid" with
    | None => ([], Raise (KeyError "data-pid"))
    | Some id =>
        let repost_of := row_attrs r !! "data-repost-of" in
        let name := row_attrs r !! "title" in
        match row_link r with
        | None => ([], Raise (AttributeError "attrs"))
        | Some link =>
            match link !! "href" with
            | None => ([], Raise (KeyError "href"))
            | Some href =>
                let url_ := urljoin E (url E) href in
                match row_meta r with
                | None => ([], Raise (UnboundLocalError "location"))
                | Some meta_text =>
                    let location := List.last (PyStr.split middle_dot meta_text) EmptyString in
                    let result :=
                      summary id repost_of name url_ (row_priceinfo r) location (row_dots r) in
                    if geotagged || include_details_ then
                      match fetch_content E url_ with
                      | Some soup =>
                          match ((if geotagged then geotag_result soup else ret tt);;
                                 (if include_details_ then include_details soup else ret tt))
                                  result with
                          | (Ok _, result') => ([EvFetchContent url_], Ok (Some result'))
                          | (Raise e, _) => ([EvFetchContent url_], Raise e)
                          end
                      | None => ([EvFetchContent url_], Ok (Some result))
                      end
                    else ([], Ok (Some result))
                end
            end
        end
    end.

End Rows.

(** ** The pagination engine: [get_results] *)

Section Pagination.
Context {F : Type} (E : Env F).

(** [get_results_approx_count(soup=soup)] *)
Definition get_results_approx_count (soup : page) : res (option Z) :=
  match page_totalcount soup with
  | Some text =>
      match PyStr.int text with
      | Some n => Ok (Some n)
      | None => Raise (ValueError text)
      end
  | None => Ok None
  end.

(** [not total] *)
Definition not_total (total : option Z) : bool :=
  match total with
  | None => true
  | Some n => n =? 0
  end.

(** The [for row in ...] loop of one page.  It returns the events, the
    exception that ended it if any, and the two counters. *)
Fixpoint rows_loop (limit : Z) (geotagged include_details_ : bool) (rows : list row)
    (results_yielded total_so_far : Z) : list (event F) * option exn * Z * Z :=
  match rows with
  | [] => ([], None, results_yielded, total_so_far)
  | r :: rest =>
      if limit <=? results_yielded then ([], None, results_yielded, total_so_far)
      else
        match process_row E r geotagged include_details_ with
        | (evs, Raise e) => (evs, Some e, results_yielded, total_so_far)
        | (evs, Ok item) =>
            let '(evs', err, ry, tsf) :=
              rows_loop limit geotagged include_details_ rest
                        (results_yielded + 1) (total_so_far + 1) in
            (evs ++ EvYield item :: evs', err, ry, tsf)
        end
  end.

(** The [while True] loop, one page per unit of fuel. *)
Fixpoint pages_loop (fuel : nat) (filters : gmap string pvalue)
    (geotagged include_details_ : bool)
    (start total_so_far results_yielded : Z) (total : option Z)
    : list (event F) * ending :=
  match fuel with
  | O => ([], OutOfFuel)
  | S fuel' =>
      let filters := <["s" := PScalar (SInt start)]> filters in
      match requests_get E filters with
      | None => ([EvGet filters], Exhausted)
      | Some soup =>
          match (if not_total total then get_results_approx_count soup else Ok total) with
          | Raise e => ([EvGet filters], Raised e)
          | Ok total =>
              match page_ol soup with
              | None => ([EvGet filters], Raised (AttributeError "find"))
              | Some rows =>
                  match ol_result_count rows with
                  | None => ([EvGet filters], Raised (AttributeError "text"))
                  | Some text =>
                      match PyStr.int (PyStr.split_first " " text) with
                      | None => ([EvGet filters], Raised (ValueError (PyStr.split_first " " text)))
                      | Some limit =>
                          let '(evs, err, results_yielded, total_so_far) :=
                            rows_loop limit geotagged include_details_ (ol_rows rows)
                                      results_yielded total_so_far in
                          match err with
                          | Some e => (EvGet filters :: evs, Raised e)
                          | None =>
                              if total_so_far - start <? RESULTS_PER_REQUEST
                              then (EvGet filters :: evs, Exhausted)
                              else
                                let '(evs', fin) :=
                                  pages_loop fuel' filters geotagged include_details_
                                             total_so_far total_so_far results_yielded total in
                                (EvGet filters :: evs ++ evs', fin)
                          end
                      end
                  end
              end
          end
      end
  end.

Definition sort_by_message (sort_by : string) : string :=
  "'" +:+ sort_by +:+ "' is not a valid sort_by option, use: 'newest', 'price_asc' or 'price_desc'".

(** A full iteration of [get_results].  [filters] is [self.filters];
    the [limit] argument is overwritten by each page before it is read. *)
Definition get_results (fuel : nat) (filters : gmap string pvalue)
    (limit : option Z) (start : Z) (sort_by : option string)
    (geotagged include_details_ : bool) : list (event F) * ending :=
  match sort_by with
  | Some (String c s as key) =>
      match dict_get key sort_by_options with
      | Some v =>
          pages_loop fuel (<["sort" := PScalar (SStr v)]> filters)
                     geotagged include_details_ start start 0 (Some 0)
      | None =>
          ([EvLogError (sort_by_message key)], Raised (ValueError (sort_by_message key)))
      end
  | _ => pages_loop fuel filters geotagged include_details_ start start 0 (Some 0)
  end.

(** The items a run yields, in order. *)
Definition yielded (evs : list (event F)) : list (option (gmap string (rvalue F))) :=
  omap (λ ev, match ev with EvYield item => Some item | _ => None end) evs.

End Pagination.

(** ** Reading the outcome of the row loop *)

Section RowsOutcome.
Context {F : Type}.

Definition rows_events (out : list (event F) * option exn * Z * Z) : list (event F) :=
  out.1.1.1.

Definition rows_error (out : list (event F) * option exn * Z * Z) : option exn :=
  out.1.1.2.

Definition rows_results_yielded (out : list (event F) * option exn * Z * Z) : Z :=
  out.1.2.

Definition rows_total_so_far (out : list (event F) * option exn * Z * Z) : Z :=
  out.2.

(** The outcome [out] of the rest of a page, after [item] was yielded. *)
Definition yield_first (item : option (gmap string (rvalue F)))
    (out : list (event F) * option exn * Z * Z) : list (event F) * option exn * Z * Z :=
  (EvYield item :: rows_events out, rows_error out,
   rows_results_yielded out, rows_total_so_far out).

Definition valid_sort_keys : list string := ["newest"; "price_asc"; "price_desc"].

End RowsOutcome.

Section Provenance.
Context {F : Type} (E : Env F).


End Provenance.

Section DetailSpec.
Context {F : Type} (E : Env F).

(** The session answers without an exception outside the two [try]
    blocks: the driver loads the page, and either the address is reached
    or the captcha probe of the handler returns. *)
Definition reveal_ok (rv : reveal_outcome) : bool :=
  rv_driver_ok rv &&
  match rv_email_href rv with
  | Some _ => true
  | None => rv_handler_ok rv
  end.

(** The record after the contact reveal. *)
Definition with_contact (rv : reveal_outcome) (st : gmap string (rvalue F))
    : gmap string (rvalue F) :=
  let st1 :=
    match rv_email_href rv with
    | Some href =>
        <["email" := VStr (PyStr.split_first "?" (PyStr.replace "mailto:" EmptyString href))]> st
    | None => st
    end in
  match rv_phone rv with
  | Some phone_number => <["phone" := VStr phone_number]> st1
  | None => st1
  end.

(** The creation time read from a [datetime] attribute. *)
Definition created_text (dt : string) : string :=
  PyStr.rsplit1_head ":" (PyStr.replace "T" " " dt).

(** A posted entry with a [<time>] has its [datetime] attribute. *)
Definition info_ok (p : info_p) : bool :=
  if PyStr.contains "posted" (p_text p) then
    match p_time p with
    | Some time => match time !! "datetime" with Some _ => true | None => false end
    | None => true
    end
  else true.

Definition with_created_one (st : gmap string (rvalue F)) (p : info_p)
    : gmap string (rvalue F) :=
  if PyStr.contains "posted" (p_text p) then
    match p_time p with
    | Some time =>
        match time !! "datetime" with
        | Some dt => <["created" := VStr (created_text dt)]> st
        | None => st
        end
    | None => st
    end
  else st.

(** The record after the loop over the posting infos. *)
Definition with_created (ps : list info_p) (st : gmap string (rvalue F))
    : gmap string (rvalue F) :=
  fold_left with_created_one ps st.

(** The larger rendition of a thumbnail link. *)
Definition upgrade (src : string) : string := PyStr.replace "50x50c" "600x450" src.

(** The links of the image tags that have one. *)
Definition links (image_tags : list (gmap string string)) : list string :=
  omap (λ img : gmap string string, img !! "src") image_tags.

Definition is_dict (v : spec_value) : bool :=
  match v with
  | SpDict _ => true
  | _ => false
  end.

(** Every list filter of the instance carries an option dict. *)
Definition tables_ok : bool :=
  forallb (λ kv : string * filter_spec, is_dict (value kv.2)) (list_filters E).

(** The keys under which [parse_attrs] may store a structured attribute. *)
Definition table_keys : list string :=
  dict_keys (extra_filters E) ++ dict_keys (list_filters E).

(** The record after the steps of [include_details] that come before
    [parse_attrs], on a page served for the record at [u]. *)
Definition with_details (soup : detail_soup) (body : list body_child) (ps : list info_p)
    (u : string) (st : gmap string (rvalue F)) : gmap string (rvalue F) :=
  <["attrs" := VStrs (collect_attrs (soup_attrgroups soup))]> (
  <["images" := VStrs (collect_images (drop_repeated (soup_imgs soup)) [])]> (
  with_created ps (
  with_contact (reveal E u) (
  <["body" := VStr (PyStr.strip (PyStr.join (body_text body)))]> st)))).

End DetailSpec.

(** ** Concrete documents and collaborators *)

Module Examples.

(** A stand-in for [urljoin]: absolute links are kept, others are
    appended to the base. *)
Definition example_urljoin (base href : string) : string :=
  if PyStr.startswith "http" href then href else base +:+ href.

Definition example_extra_filters : list (string * filter_spec) :=
  [ ("min_price", {| url_key := "min_price"; value := SpNone; attr := None |});
    ("max_price", {| url_key := "max_price"; value := SpNone; attr := None |});
    ("crypto", {| url_key := "crypto_currency_ok"; value := SpLit (SInt 1);
                  attr := Some "cryptocurrency ok" |}) ].

Definition example_list_filters : list (string * filter_spec) :=
  [ ("condition", {| url_key := "condition";
                     value := SpDict [("new", SStr "10"); ("used", SStr "40")];
                     attr := None |}) ].

Definition no_reveal : reveal_outcome :=
  {| rv_driver_ok := true; rv_email_href := None; rv_handler_ok := true; rv_phone := None |}.

Definition full_reveal : reveal_outcome :=
  {| rv_driver_ok := true; rv_email_href := Some "mailto:ab@sale.example.org?subject=bike";
     rv_handler_ok := true; rv_phone := Some "555-0100" |}.

(** An instance whose coordinates are integral literals. *)
Definition env (pages : gmap string pvalue → option page)
    (details : string → option detail_soup) (rv : reveal_outcome) : Env Z :=
  {| float := PyStr.int;
     urljoin := example_urljoin;
     url := "https://newyork.craigslist.org/search/sss";
     extra_filters := example_extra_filters;
     list_filters := example_list_filters;
     requests_get := pages;
     fetch_content := details;
     reveal := λ _, rv |}.

Definition offline : Env Z := env (λ _, None) (λ _, None) no_reveal.

Definition listing_row (pid : string) : row :=
  {| row_spacer := false;
     row_attrs := {[ "data-pid" := pid; "title" := "bike" ]};
     row_link := Some {[ "href" := "https://newyork.craigslist.org/bik/" +:+ pid +:+ ".html" ]};
     row_priceinfo := Some "$120";
     row_dots := true;
     row_meta := Some ("1h ago" +:+ middle_dot +:+ "Brooklyn") |}.

Definition spacer_row : row :=
  {| row_spacer := true; row_attrs := ∅; row_link := None;
     row_priceinfo := None; row_dots := false; row_meta := None |}.

(** A listing row whose price span is missing. *)
Definition row_without_price : row :=
  {| row_spacer := false;
     row_attrs := {[ "data-pid" := "7001" ]};
     row_link := Some {[ "href" := "https://newyork.craigslist.org/bik/7001.html" ]};
     row_priceinfo := None;
     row_dots := false;
     row_meta := Some ("1h ago" +:+ middle_dot +:+ "Brooklyn") |}.

(** A listing row whose [div.meta] is missing. *)
Definition row_without_meta : row :=
  {| row_spacer := false;
     row_attrs := {[ "data-pid" := "7002" ]};
     row_link := Some {[ "href" := "https://newyork.craigslist.org/bik/7002.html" ]};
     row_priceinfo := Some "$120";
     row_dots := false;
     row_meta := None |}.

Definition result_list (count : string) (rows : list row) : ol_elem :=
  {| ol_result_count := Some (count +:+ " results"); ol_rows := rows |}.

Definition search_page (count : string) (rows : list row) : page :=
  {| page_totalcount := Some "250"; page_ol := Some (result_list count rows) |}.


(** Two full pages of a hundred rows, each declaring a hundred
    results. *)
Definition two_page_site (params : gmap string pvalue) : option page :=
  match params !! "s" with
  | Some (PScalar (SInt 0)) => Some (search_page "100" (replicate 100 (listing_row "1")))
  | Some (PScalar (SInt 100)) => Some (search_page "100" (replicate 100 (listing_row "2")))
  | _ => None
  end.

Definition posted_at (datetime : string) : info_p :=
  {| p_text := "posted: 2023-01-01 10:30"; p_time := Some {[ "datetime" := datetime ]} |}.

Definition detail_page (datetime : string) (imgs : list (gmap string string)) : detail_soup :=
  {| soup_postingbody := Some [NavigableString " A good bike. "; Tag true "QR Code Link to This Post"];
     soup_postinginfos := Some [ {| p_text := "post id: 7001"; p_time := None |}; posted_at datetime ];
     soup_imgs := imgs;
     soup_attrgroups := [["condition: used"; " cryptocurrency ok "]];
     soup_mapaddress := None;
     soup_map := None |}.

Definition deleted_page : detail_soup :=
  {| soup_postingbody := None; soup_postinginfos := None; soup_imgs := [];
     soup_attrgroups := []; soup_mapaddress := None; soup_map := None |}.

(** A map element that carries only its longitude. *)
Definition partial_map_page : detail_soup :=
  {| soup_postingbody := None; soup_postinginfos := None; soup_imgs := [];
     soup_attrgroups := []; soup_mapaddress := None;
     soup_map := Some {[ "data-longitude" := "-74" ]} |}.

Definition full_map_page : detail_soup :=
  {| soup_postingbody := None; soup_postinginfos := None; soup_imgs := [];
     soup_attrgroups := []; soup_mapaddress := None;
     soup_map := Some {[ "data-latitude" := "40"; "data-longitude" := "-74" ]} |}.

Definition thumb (name : string) : gmap string string :=
  {[ "src" := "https://images.craigslist.org/" +:+ name +:+ "_50x50c.jpg" ]}.

(** A request with a partly unresolved list filter, an unknown key and
    a list filter none of whose options resolves. *)
Definition example_request : list (string * pvalue) :=
  [ ("query", PScalar (SStr "apple"));
    ("condition", PList [SStr "new"; SStr "mint"]);
    ("bogus", PScalar (SInt 1));
    ("has_image", PScalar (SBool false)) ].

Definition unresolved_request : list (string * pvalue) :=
  [ ("query", PScalar (SStr "apple"));
    ("condition", PList [SStr "mint"; SInt 3]);
    ("zip_code", PScalar (SInt 11249)) ].

(** An instance whose session reveals both contact fields. *)
Definition revealing : Env Z := env (λ _, None) (λ _, None) full_reveal.

(** The record of [listing_row pid]. *)
Definition listing_record (pid : string) : gmap string (rvalue Z) :=
  summary pid None (Some "bike") ("https://newyork.craigslist.org/bik/" +:+ pid +:+ ".html")
          (Some "$120") "Brooklyn" true.

Definition a_summary : gmap string (rvalue Z) :=
  summary "7001" None (Some "bike") "https://newyork.craigslist.org/bik/7001.html"
          (Some "$120") "Brooklyn" true.

End Examples.

(** ** Specification predicates *)

Section FilterSpec.
Context {F : Type} (E : Env F).

(** Where an entry [uk := pv] of the parameters comes from: the fixed
    anti-nearby parameter, or one requested filter that resolves to a
    spec with that provider key, and then the value the spec's
    behaviour produces from the request.  For a list filter that value
    is the list of the codes of the options that resolve, in order. *)
Definition justified (filters : list (string * pvalue)) (uk : string) (pv : pvalue) : Prop :=
  (uk = "searchNearby" ∧ pv = PScalar (SInt 1)) ∨
  ∃ key v f, (key, v) ∈ filters ∧ find_filter E key = Some f ∧ url_key f = uk ∧
    match value f with
    | SpNone => pv = v
    | SpDict valid_options => pv = PList (omap (lookup_option valid_options) (force_list v))
    | SpLit lit => truthy v = true ∧ pv = PScalar lit
    end.

(** The warning that an option that does not resolve leaves. *)
Definition option_warning (valid_options : list (string * scalar)) (key : string)
    (opt : scalar) : option log_record :=
  match lookup_option valid_options opt with
  | Some _ => None
  | None => Some (WarnInvalidOption opt key)
  end.

(** What the loop over [filters] maintains, [seen] being the entries
    already processed. *)
Definition filters_inv (seen : list (string * pvalue))
    (st : gmap string pvalue * list log_record) : Prop :=
  (∀ uk pv, st.1 !! uk = Some pv → justified seen uk pv) ∧
  (∀ key v, (key, v) ∈ seen → find_filter E key = None → WarnInvalidFilter key ∈ st.2) ∧
  (∀ key v f valid_options opt,
      (key, v) ∈ seen → find_filter E key = Some f → value f = SpDict valid_options →
      opt ∈ force_list v → lookup_option valid_options opt = None →
      WarnInvalidOption opt key ∈ st.2).

End FilterSpec.

(** ** The browser session: [CraigslistBrowser] of [src/browser.py] *)

Section Browser.
Context {H T : Type}.

(** What the Selenium driver and the clock answer.  [H] is the type of
    driver handles, [T] the type of [time.time()] readings. *)
Record browser_env : Type := {
  chrome : option H;                    (* webdriver.Chrome(...); None = it raises *)
  driver_get : H → string → bool;       (* DRIVER.get(url) returns *)
  wait_until : H → bool;                (* the bounded wait finds the result list *)
  execute_script : H → option string;   (* the page source; None = it raises *)
  driver_quit : H → bool;               (* DRIVER.quit() returns *)
  idle : T → T → bool                   (* now - last_called >= 5 *)
}.

(** The class attributes. *)
Record browser : Type := {
  DRIVER : option H;
  last_called : T;
  waiting : bool
}.

(** What a call does to the outside. *)
Inductive browser_event : Type :=
  | Launch
  | Navigate (h : H) (url : string)
  | Wait (h : H)
  | Script (h : H)
  | QuitDriver (h : H)
  | TimerStart.

Definition set_driver (B : browser_env) (st : browser)
    : res unit * browser * list browser_event :=
  match chrome B with
  | Some h => (Ok tt, {| DRIVER := Some h; last_called := last_called st;
                         waiting := waiting st |}, [Launch])
  | None => (Raise WebDriverException, st, [Launch])
  end.

Definition get_driver (B : browser_env) (st : browser)
    : res (option H) * browser * list browser_event :=
  match DRIVER st with
  | Some h => (Ok (Some h), st, [])
  | None =>
      match set_driver B st with
      | (Ok _, st', evs) => (Ok (DRIVER st'), st', evs)
      | (Raise e, st', evs) => (Raise e, st', evs)
      end
  end.

Definition visit (B : browser_env) (now : T) (url_ : string) (st : browser)
    : res unit * browser * list browser_event :=
  let st := {| DRIVER := DRIVER st; last_called := now; waiting := waiting st |} in
  let '(r, st, evs) :=
    match DRIVER st with
    | Some _ => (Ok tt, st, [])
    | None => set_driver B st
    end in
  match r with
  | Raise e => (Raise e, st, evs)
  | Ok _ =>
      match DRIVER st with
      | Some h =>
          if driver_get B h url_ then (Ok tt, st, evs ++ [Navigate h url_])
          else (Raise WebDriverException, st, evs ++ [Navigate h url_])
      | None => (Raise (AttributeError "get"), st, evs)
      end
  end.

(** [show_source]: [Ok None] is the bare [return] after a failed wait. *)
Definition show_source (B : browser_env) (wait : bool) (st : browser)
    : res (option string) * browser * list browser_event :=
  let script (st : browser) (evs : list browser_event) :=
    match DRIVER st with
    | Some h =>
        match execute_script B h with
        | Some data =>
            (Ok (Some data),
             {| DRIVER := DRIVER st; last_called := last_called st; waiting := false |},
             evs ++ [Script h])
        | None => (Raise WebDriverException, st, evs ++ [Script h])
        end
    | None => (Raise (AttributeError "execute_script"), st, evs)
    end in
  if wait then
    let st := {| DRIVER := DRIVER st; last_called := last_called st; waiting := true |} in
    match DRIVER st with
    | Some h =>
        if wait_until B h then script st [Wait h]
        else (Ok None,
              {| DRIVER := DRIVER st; last_called := last_called st; waiting := false |},
              [Wait h])
    | None =>
        (Ok None, {| DRIVER := DRIVER st; last_called := last_called st; waiting := false |}, [])
    end
  else script st [].

Definition quit (B : browser_env) (st : browser)
    : res unit * browser * list browser_event :=
  match DRIVER st with
  | None => (Ok tt, st, [])
  | Some h =>
      if driver_quit B h
      then (Ok tt, {| DRIVER := None; last_called := last_called st; waiting := waiting st |},
            [QuitDriver h])
      else (Raise WebDriverException, st, [QuitDriver h])
  end.

Definition check_activity (B : browser_env) (now : T) (st : browser)
    : res unit * browser * list browser_event :=
  if idle B now (last_called st) && negb (waiting st) then
    match quit B st with
    | (Ok _, st', evs) => (Ok tt, st', evs ++ [TimerStart])
    | (Raise e, st', evs) => (Raise e, st', evs)
    end
  else (Ok tt, st, [TimerStart]).

End Browser.

(** ** The list-filter cache: [get_list_filters] *)

Section ListFilterCache.
Context {Tbl : Type}.

(** [utils_get_list_filters] is [utils.get_list_filters]; the cache
    holds whatever it returned, [None] included.  The third component
    lists the URLs fetched by the call. *)
Definition get_list_filters (utils_get_list_filters : string → option Tbl)
    (cache : gmap string (option Tbl)) (url_ : string)
    : option Tbl * gmap string (option Tbl) * list string :=
  match cache !! url_ with
  | Some (Some tables) => (Some tables, cache, [])
  | _ =>
      let tables := utils_get_list_filters url_ in
      (tables, <[url_ := tables]> cache, [url_])
  end.

End ListFilterCache.

(** ** The caller's bookkeeping: [ClaireQuery] of [src/CL_MAIN.py] *)

Section Caller.
Context {L : Type} (listing_id : L → string).

(** The loop of [filter_listings], [filtered_listings] being the list
    built so far. *)
Fixpoint filter_listings_go (sent_listings : gset string) (listings : list L)
    (filtered_listings : list L) : list L :=
  match listings with
  | [] => filtered_listings
  | listing :: rest =>
      if decide (listing_id listing ∈ sent_listings)
      then filter_listings_go sent_listings rest filtered_listings
      else filter_listings_go sent_listings rest (filtered_listings ++ [listing])
  end.

Definition filter_listings (sent_listings : gset string) (listings : list L) : list L :=
  filter_listings_go sent_listings listings [].

(** [mark_sent]: the set after the loop of [add]. *)
Fixpoint mark_sent (sent_listings : gset string) (listings : list L) : gset string :=
  match listings with
  | [] => sent_listings
  | listing :: rest => mark_sent ({[listing_id listing]} ∪ sent_listings) rest
  end.

End Caller.

(** ** More specification predicates *)

Section MoreSpec.
Context {F : Type} (E : Env F).

(** The warnings that one entry of the request leaves. *)
Definition entry_warnings (kv : string * pvalue) : list log_record :=
  match find_filter E kv.1 with
  | None => [WarnInvalidFilter kv.1]
  | Some f =>
      match value f with
      | SpDict valid_options => omap (option_warning valid_options kv.1) (force_list kv.2)
      | _ => []
      end
  end.

(** The parameters of the search-page requests of a run, in order. *)
Definition requests (evs : list (event F)) : list (gmap string pvalue) :=
  omap (λ ev, match ev with EvGet params => Some params | _ => None end) evs.

(** No page that the site serves declares more than [bound] results. *)
Definition declared_at_most (bound : Z) : Prop :=
  ∀ params soup rows text limit,
    requests_get E params = Some soup → page_ol soup = Some rows →
    ol_result_count rows = Some text →
    PyStr.int (PyStr.split_first " " text) = Some limit → limit ≤ bound.

(** The eleven keys of a summary record. *)
Definition summary_keys : gset string :=
  list_to_set ["id"; "repost_of"; "name"; "url"; "datetime"; "last_updated";
               "price"; "where"; "has_image"; "geotag"; "deleted"].

End MoreSpec.

(** An ASCII capital occurs in the text. *)
Fixpoint has_upper (s : string) : bool :=
  match s with
  | EmptyString => false
  | String c s' =>
      let n := nat_of_ascii c in
      ((65 <=? n)%nat && (n <=? 90)%nat) || has_upper s'
  end.

(** Concrete sessions and listings. *)
Module MoreExamples.

Definition working_browser : @browser_env nat Z :=
  {| chrome := Some 7%nat;
     driver_get := λ _ _, true;
     wait_until := λ _, true;
     execute_script := λ _, Some "<html></html>";
     driver_quit := λ _, true;
     idle := λ now last, 5 <=? now - last |}.

Definition fresh_session : @browser nat Z :=
  {| DRIVER := None; last_called := 0; waiting := false |}.

Definition live_session : @browser nat Z :=
  {| DRIVER := Some 7%nat; last_called := 0; waiting := false |}.

Definition three_row_site (params : gmap string pvalue) : option page :=
  match params !! "s" with
  | Some (PScalar (SInt 0)) =>
      Some (Examples.search_page "3"
              [Examples.listing_row "1"; Examples.spacer_row; Examples.listing_row "2"])
  | _ => None
  end.

Definition forty_pages (params : gmap string pvalue) : option page :=
  match params !! "s" with
  | Some (PScalar (SInt 0)) =>
      Some (Examples.search_page "100" (replicate 100 (Examples.listing_row "1")))
  | Some (PScalar (SInt _)) =>
      Some (Examples.search_page "100" (replicate 100 (Examples.listing_row "2")))
  | _ => None
  end.

(** An instance whose binary filter is marked with capital letters. *)
Definition shouting : Env Z :=
  {| float := PyStr.int;
     urljoin := Examples.example_urljoin;
     url := "https://newyork.craigslist.org/search/sss";
     extra_filters :=
       [ ("crypto", {| url_key := "crypto_currency_ok"; value := SpLit (SInt 1);
                       attr := Some "Cryptocurrency OK" |}) ];
     list_filters := Examples.example_list_filters;
     requests_get := λ _, None;
     fetch_content := λ _, None;
     reveal := λ _, Examples.no_reveal |}.

(** A driver whose [quit] fails. *)
Definition stubborn_browser : @browser_env nat Z :=
  {| chrome := Some 7%nat;
     driver_get := λ _ _, true;
     wait_until := λ _, true;
     execute_script := λ _, None;
     driver_quit := λ _, false;
     idle := λ now last, 5 <=? now - last |}.

Record listing : Type := { listing_ident : string; listing_name : string }.

Definition some_listings : list listing :=
  [ {| listing_ident := "7001"; listing_name := "bike" |};
    {| listing_ident := "7002"; listing_name := "lamp" |};
    {| listing_ident := "7003"; listing_name := "desk" |} ].

(** Pages with two thumbnails on which the image step is not reached. *)
Definition two_thumbs : list (gmap string string) :=
  [Examples.thumb "a"; Examples.thumb "b"].

Definition deleted_with_images : detail_soup :=
  {| soup_postingbody := None; soup_postinginfos := None; soup_imgs := two_thumbs;
     soup_attrgroups := []; soup_mapaddress := None; soup_map := None |}.

Definition no_infos_page : detail_soup :=
  {| soup_postingbody := Some [NavigableString "A good bike."]; soup_postinginfos := None;
     soup_imgs := two_thumbs; soup_attrgroups := []; soup_mapaddress := None;
     soup_map := None |}.

Definition undated_page : detail_soup :=
  {| soup_postingbody := Some [NavigableString "A good bike."];
     soup_postinginfos := Some [ {| p_text := "posted: just now"; p_time := Some ∅ |} ];
     soup_imgs := two_thumbs; soup_attrgroups := []; soup_mapaddress := None;
     soup_map := None |}.

(** A session whose driver cannot load the page. *)
Definition failing_reveal : reveal_outcome :=
  {| rv_driver_ok := false; rv_email_href := None; rv_handler_ok := true; rv_phone := None |}.

Definition unreachable : Env Z := Examples.env (λ _, None) (λ _, None) failing_reveal.

End MoreExamples.

(** ** Proofs *)

(** The string primitives on the texts the source meets. *)
Example replace_T :
  PyStr.replace "T" " " "2023-01-01T10:30:00-0500" = "2023-01-01 10:30:00-0500".
Proof. reflexivity. Qed.

Example rsplit_last_colon :
  PyStr.rsplit1_head ":" "2023-01-01 10:30:00-0500" = "2023-01-01 10:30".
Proof. reflexivity. Qed.

Example replace_thumbnail_token :
  PyStr.replace "50x50c" "600x450" "https://i/a_50x50c.jpg" = "https://i/a_600x450.jpg".
Proof. reflexivity. Qed.

Example split_keywords : PyStr.split ", " "a, b, " = ["a"; "b"; EmptyString].
Proof. reflexivity. Qed.

Example int_signed : PyStr.int " -1_20" = Some (-120).
Proof. reflexivity. Qed.

Example int_rejects_double_underscore : PyStr.int "1__2" = None.
Proof. reflexivity. Qed.

Example int_rejects_separator_control :
  PyStr.int (String (ascii_of_nat 28) "5") = None.
Proof. reflexivity. Qed.

Example strip_blanks : PyStr.strip "  a b  " = "a b".
Proof. reflexivity. Qed.

Example split1_label :
  PyStr.split1_last ": " "transmission: automatic: x" = "automatic: x".
Proof. reflexivity. Qed.

Section FilterProofs.
Context {F : Type} (E : Env F).

Lemma resolve_options_eq valid_options key opts : ∀ options log,
  resolve_options valid_options key opts options log =
    (options ++ omap (lookup_option valid_options) opts,
     log ++ omap (option_warning valid_options key) opts).
Proof.
  induction opts as [|opt rest IH]; intros options log; simpl.
  - by rewrite !app_nil_r.
  - unfold option_warning at 1.
    destruct (lookup_option valid_options opt) as [code|]; rewrite IH.
    + by rewrite <- app_assoc.
    + by rewrite <- app_assoc.
Qed.

Lemma justified_mono seen kv uk pv :
  justified E seen uk pv → justified E (seen ++ [kv]) uk pv.
Proof.
  intros [H|(key & v & f & Hin & H)]; [by left|].
  right. exists key, v, f. split; [|done].
  apply elem_of_app. by left.
Qed.

Lemma apply_filter_log_grows st kv x :
  x ∈ st.2 → x ∈ (apply_filter E st kv).2.
Proof.
  destruct st as [parsed log], kv as [key v]. simpl. intros Hx.
  destruct (find_filter E key) as [f|]; simpl.
  - destruct (value f) as [|valid_options|lit]; simpl; [done| |].
    + rewrite resolve_options_eq. simpl. apply elem_of_app. by left.
    + by destruct (truthy v).
  - apply elem_of_app. by left.
Qed.

(** One turn of the loop keeps the invariant. *)
Lemma apply_filter_inv seen st kv :
  filters_inv E seen st → filters_inv E (seen ++ [kv]) (apply_filter E st kv).
Proof.
  intros (Hj & Hw & Ho). split; [|split].
  - intros uk pv. destruct st as [parsed log], kv as [key v]. simpl in *.
    assert (Hhere : (key, v) ∈ seen ++ [(key, v)]) by (apply elem_of_app; right; by left).
    destruct (find_filter E key) as [f|] eqn:Hf; simpl.
    + destruct (value f) as [|valid_options|lit] eqn:Hv; simpl.
      * destruct (decide (url_key f = uk)) as [<-|Hne].
        -- rewrite lookup_insert_eq. intros [= <-]. right.
           exists key, v, f. rewrite Hv. by repeat split.
        -- rewrite lookup_insert_ne by done. intros H. by apply justified_mono, Hj.
      * rewrite resolve_options_eq. simpl.
        destruct (decide (url_key f = uk)) as [<-|Hne].
        -- rewrite lookup_insert_eq. intros [= <-]. right.
           exists key, v, f. rewrite Hv. by repeat split.
        -- rewrite lookup_insert_ne by done. intros H. by apply justified_mono, Hj.
      * destruct (truthy v) eqn:Ht; simpl.
        -- destruct (decide (url_key f = uk)) as [<-|Hne].
           ++ rewrite lookup_insert_eq. intros [= <-]. right.
              exists key, v, f. rewrite Hv. by repeat split.
           ++ rewrite lookup_insert_ne by done. intros H. by apply justified_mono, Hj.
        -- intros H. by apply justified_mono, Hj.
    + intros H. by apply justified_mono, Hj.
  - intros key v Hin Hnone.
    apply elem_of_app in Hin as [Hin|Hin].
    + apply apply_filter_log_grows. by eapply Hw.
    + apply list_elem_of_singleton in Hin as <-.
      destruct st as [parsed log]. simpl. rewrite Hnone. simpl.
      apply elem_of_app. right. by left.
  - intros key v f valid_options opt Hin Hf Hv Hopt Hnone.
    apply elem_of_app in Hin as [Hin|Hin].
    + apply apply_filter_log_grows. by eapply Ho.
    + apply list_elem_of_singleton in Hin as <-.
      destruct st as [parsed log]. simpl. rewrite Hf, Hv.
      rewrite resolve_options_eq. simpl.
      apply elem_of_app. right. apply list_elem_of_omap.
      exists opt. split; [done|]. unfold option_warning. by rewrite Hnone.
Qed.

Lemma fold_apply_filter_inv fs : ∀ seen st,
  filters_inv E seen st → filters_inv E (seen ++ fs) (fold_left (apply_filter E) fs st).
Proof.
  induction fs as [|kv fs IH]; intros seen st Hinv; simpl.
  - by rewrite app_nil_r.
  - replace (seen ++ kv :: fs) with ((seen ++ [kv]) ++ fs) by by rewrite <- app_assoc.
    by apply IH, apply_filter_inv.
Qed.

Lemma filters_inv_init :
  filters_inv E [] ({["searchNearby" := PScalar (SInt 1)]}, []).
Proof.
  split; [|split].
  - intros uk pv. simpl. intros [<- <-]%lookup_singleton_Some. by left.
  - intros key v Hin. by apply elem_of_nil in Hin.
  - intros key v f valid_options opt Hin. by apply elem_of_nil in Hin.
Qed.

Lemma get_filters_inv filters :
  filters_inv E (default [] filters) (get_filters_log E filters).
Proof.
  unfold get_filters_log.
  apply (fold_apply_filter_inv (default [] filters) [] _ filters_inv_init).
Qed.

Lemma omap_all_None {A B : Type} (f : A → option B) (l : list A) :
  (∀ x, x ∈ l → f x = None) → omap f l = [].
Proof.
  induction l as [|x l IH]; intros Hall; [done|]. simpl.
  rewrite (Hall x) by by left.
  apply IH. intros y Hy. apply Hall. by right.
Qed.

(** Entries that resolve to another provider key leave [uk] alone. *)
Lemma apply_filter_other_key st key v uk :
  (∀ f, find_filter E key = Some f → url_key f ≠ uk) →
  (apply_filter E st (key, v)).1 !! uk = st.1 !! uk.
Proof.
  intros Hne. destruct st as [parsed log]. simpl.
  destruct (find_filter E key) as [f|]; [|done].
  specialize (Hne f eq_refl).
  destruct (value f) as [|valid_options|lit]; simpl.
  - by rewrite lookup_insert_ne.
  - rewrite resolve_options_eq. simpl. by rewrite lookup_insert_ne.
  - destruct (truthy v); simpl; [by rewrite lookup_insert_ne|done].
Qed.

Lemma fold_apply_filter_other_key post uk : ∀ st,
  (∀ key v f, (key, v) ∈ post → find_filter E key = Some f → url_key f ≠ uk) →
  (fold_left (apply_filter E) post st).1 !! uk = st.1 !! uk.
Proof.
  induction post as [|[key v] post IH]; intros st Hne; simpl; [done|].
  rewrite IH.
  - apply apply_filter_other_key. intros f. apply (Hne key v). by left.
  - intros key' v' f' Hin. apply (Hne key' v' f'). by right.
Qed.

End FilterProofs.

(** C6.  The parameters that [get_filters] returns hold nothing that
    comes from an unresolved option: every entry is the fixed
    anti-nearby parameter or the product of one requested filter that
    resolves, and for a list filter it is exactly the codes of the options
    that resolve (an unresolved option is left out, nothing stands in for
    it).  A key found in none of the three tables leaves a warning and no
    entry, and so does every unresolved option; the function is total, so
    neither makes the call fail. *)
Theorem get_filters_drops_unresolved {F : Type} (E : Env F)
    (filters : option (list (string * pvalue))) :
  (∀ uk pv, get_filters E filters !! uk = Some pv → justified E (default [] filters) uk pv) ∧
  (∀ key v, (key, v) ∈ default [] filters → find_filter E key = None →
     WarnInvalidFilter key ∈ (get_filters_log E filters).2) ∧
  (∀ key v f valid_options opt,
     (key, v) ∈ default [] filters → find_filter E key = Some f →
     value f = SpDict valid_options →
     opt ∈ force_list v → lookup_option valid_options opt = None →
     WarnInvalidOption opt key ∈ (get_filters_log E filters).2).
Proof. exact (get_filters_inv E filters). Qed.

Lemma get_filters_drops_unresolved_witness :
  justified Examples.offline Examples.example_request "condition" (PList [SStr "10"]) ∧
  WarnInvalidFilter "bogus" ∈ (get_filters_log Examples.offline (Some Examples.example_request)).2 ∧
  WarnInvalidOption (SStr "mint") "condition"
    ∈ (get_filters_log Examples.offline (Some Examples.example_request)).2.
Proof.
  destruct (get_filters_drops_unresolved Examples.offline (Some Examples.example_request))
    as (Hj & Hw & Ho).
  split; [|split].
  - apply Hj. reflexivity.
  - apply (Hw "bogus" (PScalar (SInt 1))); [|reflexivity].
    simpl. unfold Examples.example_request. do 2 right. left.
  - apply (Ho "condition" (PList [SStr "new"; SStr "mint"])
              {| url_key := "condition";
                 value := SpDict [("new", SStr "10"); ("used", SStr "40")];
                 attr := None |}
              [("new", SStr "10"); ("used", SStr "40")] (SStr "mint"));
      [|reflexivity|reflexivity| |reflexivity].
    + simpl. unfold Examples.example_request. right. left.
    + simpl. right. left.
Defined.

(** C10.  A requested list filter none of whose options resolves still
    puts its provider key into the parameters, with the empty list: the
    entry is written after the inner loop whatever it collected.  (A later
    entry of the request that resolves to the same provider key would
    overwrite it, as for any parameter.) *)
Theorem get_filters_emits_empty_list {F : Type} (E : Env F)
    (filters : option (list (string * pvalue)))
    (pre post : list (string * pvalue)) (key : string) (v : pvalue)
    (f : filter_spec) (valid_options : list (string * scalar)) :
  default [] filters = pre ++ (key, v) :: post →
  find_filter E key = Some f →
  value f = SpDict valid_options →
  (∀ opt, opt ∈ force_list v → lookup_option valid_options opt = None) →
  (∀ key' v' f', (key', v') ∈ post → find_filter E key' = Some f' → url_key f' ≠ url_key f) →
  get_filters E filters !! url_key f = Some (PList []).
Proof.
  intros Hfs Hf Hv Hnone Hpost.
  unfold get_filters, get_filters_log. rewrite Hfs, fold_left_app. simpl.
  rewrite fold_apply_filter_other_key by done.
  destruct (fold_left (apply_filter E) pre _) as [parsed log]. simpl.
  rewrite Hf, Hv, resolve_options_eq. simpl.
  rewrite omap_all_None by done.
  apply lookup_insert_eq.
Qed.

Lemma get_filters_emits_empty_list_witness :
  get_filters Examples.offline (Some Examples.unresolved_request) !! "condition"
    = Some (PList []).
Proof.
  apply (get_filters_emits_empty_list Examples.offline (Some Examples.unresolved_request)
           [("query", PScalar (SStr "apple"))] [("zip_code", PScalar (SInt 11249))]
           "condition" (PList [SStr "mint"; SInt 3])
           {| url_key := "condition";
              value := SpDict [("new", SStr "10"); ("used", SStr "40")];
              attr := None |}
           [("new", SStr "10"); ("used", SStr "40")]).
  - reflexivity.
  - reflexivity.
  - reflexivity.
  - intros opt Hopt. simpl in Hopt.
    apply elem_of_cons in Hopt as [->|Hopt]; [reflexivity|].
    apply elem_of_cons in Hopt as [->|Hopt]; [reflexivity|].
    by apply elem_of_nil in Hopt.
  - intros key' v' f' Hin. apply list_elem_of_singleton in Hin as [= -> ->].
    intros [= <-]. simpl. discriminate.
Defined.

Section EnrichmentProofs.
Context {F : Type} (E : Env F).

(** The monad's sequencing, step by step. *)
Lemma bind_ok {A B : Type} (m : M F A) (k : A → M F B) st a st' :
  m st = (Ok a, st') → (m ≫= k) st = k a st'.
Proof. intros H. unfold mbind, M_bind, bind. by rewrite H. Qed.

Lemma bind_raise {A B : Type} (m : M F A) (k : A → M F B) st e st' :
  m st = (Raise e, st') → (m ≫= k) st = (Raise e, st').
Proof. intros H. unfold mbind, M_bind, bind. by rewrite H. Qed.

Lemma geotag_result_no_map soup result :
  soup_map soup = None → geotag_result E soup result = (Ok tt, result).
Proof. intros H. unfold geotag_result. by rewrite H. Qed.

Lemma geotag_result_eval soup map_ result :
  soup_map soup = Some map_ →
  geotag_result E soup result =
    match map_ !! "data-latitude" with
    | None => (Raise (KeyError "data-latitude"), result)
    | Some lat_text =>
        match float E lat_text with
        | None => (Raise (ValueError lat_text), result)
        | Some lat =>
            match map_ !! "data-longitude" with
            | None => (Raise (KeyError "data-longitude"), result)
            | Some lon_text =>
                match float E lon_text with
                | None => (Raise (ValueError lon_text), result)
                | Some lon => (Ok tt, <["geotag" := VGeotag lat lon]> result)
                end
            end
        end
    end.
Proof.
  intros H. unfold geotag_result. rewrite H.
  unfold mbind, M_bind, bind, tag_attr, to_float.
  destruct (map_ !! "data-latitude") as [lat_text|]; simpl; [|done].
  destruct (float E lat_text) as [lat|]; simpl; [|done].
  destruct (map_ !! "data-longitude") as [lon_text|]; simpl; [|done].
  by destruct (float E lon_text) as [lon|].
Qed.

Lemma for_each_cons {A : Type} (body : A → M F unit) x l st :
  for_each body (x :: l) st = (body x ≫= λ _, for_each body l) st.
Proof. done. Qed.

(** A loop whose turns store at most one entry each. *)
Lemma for_each_writes {A : Type} (body : A → M F unit) (keyof : A → string) l :
  (∀ x st, x ∈ l → body x st = (Ok tt, st) ∨ ∃ v, body x st = (Ok tt, <[keyof x := v]> st)) →
  ∀ st, ∃ st', for_each body l st = (Ok tt, st') ∧
               ∀ k, k ∉ keyof <$> l → st' !! k = st !! k.
Proof.
  induction l as [|x l IH]; intros Hbody st.
  - by exists st.
  - assert (IHl := IH (λ y st Hy, Hbody y st (list_elem_of_further _ _ _ Hy))).
    destruct (Hbody x st (list_elem_of_here _ _)) as [Hx|[v Hx]].
    + destruct (IHl st) as (st' & Hrun & Hframe).
      exists st'. split.
      * rewrite for_each_cons. by rewrite (bind_ok _ _ _ _ _ Hx).
      * intros k Hk. apply Hframe. intros Hin. apply Hk. simpl. by right.
    + destruct (IHl (<[keyof x := v]> st)) as (st' & Hrun & Hframe).
      exists st'. split.
      * rewrite for_each_cons. by rewrite (bind_ok _ _ _ _ _ Hx).
      * intros k Hk. rewrite Hframe.
        -- apply lookup_insert_ne. intros <-. apply Hk. simpl. by left.
        -- intros Hin. apply Hk. simpl. by right.
Qed.

Lemma for_each_created ps : ∀ st : gmap string (rvalue F),
  forallb info_ok ps = true →
  for_each (created_of) ps st = (Ok tt, with_created ps st).
Proof.
  induction ps as [|p ps IH]; intros st Hok; [done|].
  simpl in Hok. apply andb_prop in Hok as [Hp Hps].
  rewrite for_each_cons.
  assert (Hone : created_of p st = (Ok tt, with_created_one st p)).
  { unfold created_of, with_created_one, info_ok in *.
    destruct (PyStr.contains "posted" (p_text p)); [|done].
    destruct (p_time p) as [time|]; [|done].
    unfold mbind, M_bind, bind, tag_attr.
    by destruct (time !! "datetime"). }
  rewrite (bind_ok _ _ _ _ _ Hone). by apply IH.
Qed.

Lemma reveal_contact_run st u :
  st !! "url" = Some (VStr u) →
  reveal_ok (reveal E u) = true →
  reveal_contact E st = (Ok tt, with_contact (reveal E u) st).
Proof.
  intros Hurl Hok. unfold reveal_contact, with_contact, reveal_ok in *.
  unfold mbind, M_bind, bind, getitem. rewrite Hurl.
  apply andb_prop in Hok as [Hdriver Hmail]. rewrite Hdriver.
  destruct (rv_email_href (reveal E u)) as [href|]; simpl.
  - by destruct (rv_phone (reveal E u)).
  - rewrite Hmail. simpl. by destruct (rv_phone (reveal E u)).
Qed.

Lemma with_contact_frame rv (st : gmap string (rvalue F)) k :
  k ≠ "email" → k ≠ "phone" → with_contact rv st !! k = st !! k.
Proof.
  intros He Hp. unfold with_contact.
  destruct (rv_phone rv), (rv_email_href rv);
    rewrite ?lookup_insert_ne by done; done.
Qed.

Lemma with_created_frame ps k : ∀ st : gmap string (rvalue F),
  k ≠ "created" → with_created ps st !! k = st !! k.
Proof.
  induction ps as [|p ps IH]; intros st Hk; [done|].
  unfold with_created in *. simpl. rewrite IH by done.
  unfold with_created_one.
  destruct (PyStr.contains "posted" (p_text p)); [|done].
  destruct (p_time p) as [time|]; [|done].
  destruct (time !! "datetime"); [|done].
  by rewrite lookup_insert_ne.
Qed.

(** Entries without the word "posted" leave the record alone. *)
Lemma with_created_skip ps : ∀ st : gmap string (rvalue F),
  Forall (λ q, PyStr.contains "posted" (p_text q) = false) ps →
  with_created ps st = st.
Proof.
  induction ps as [|p ps IH]; intros st Hall; [done|].
  inversion Hall as [|? ? Hp Hps]; subst.
  unfold with_created in *. simpl. rewrite IH by done.
  unfold with_created_one. by rewrite Hp.
Qed.

Lemma info_ok_skip ps :
  Forall (λ q, PyStr.contains "posted" (p_text q) = false) ps →
  forallb info_ok ps = true.
Proof.
  induction 1 as [|p ps Hp Hps IH]; [done|].
  simpl. rewrite IH. unfold info_ok. by rewrite Hp.
Qed.

(** The image loop appends the upgraded links of the tags that have
    one. *)
Lemma collect_images_eq image_tags : ∀ images,
  collect_images image_tags images = images ++ (upgrade <$> links image_tags).
Proof.
  induction image_tags as [|img rest IH]; intros images; simpl.
  - by rewrite app_nil_r.
  - unfold links. simpl. destruct (img !! "src") as [src|]; rewrite IH.
    + by rewrite <- app_assoc.
    + done.
Qed.

Lemma parse_attrs_run st raw :
  tables_ok E = true →
  st !! "attrs" = Some (VStrs raw) →
  ∃ st', parse_attrs E st = (Ok tt, st') ∧
         ∀ k, k ∉ table_keys E → st' !! k = st !! k.
Proof.
  intros Htables Hattrs. unfold parse_attrs.
  unfold mbind at 1. unfold M_bind, bind, getitem. rewrite Hattrs.
  match goal with
  | |- context [for_each ?b (extra_filters E)] =>
      destruct (for_each_writes b fst (extra_filters E)) with (st := st)
        as (st1 & Hrun1 & Hframe1)
  end.
  { intros [key options] st0 _.
    destruct (is_binary (value options)); [|by left].
    destruct (str_in _ _); [right; by eexists|by left]. }
  match goal with
  | |- context [for_each ?b (list_filters E)] =>
      destruct (for_each_writes b fst (list_filters E)) with (st := st1)
        as (st2 & Hrun2 & Hframe2)
  end.
  { intros [key options] st0 Hin.
    unfold tables_ok in Htables. rewrite forallb_forall in Htables.
    apply list_elem_of_In in Hin. specialize (Htables _ Hin). simpl in Htables.
    destruct (value options) as [|valid_options|lit]; try done.
    destruct (first_option _ _); [right; by eexists|by left]. }
  exists st2. split.
  - by rewrite (bind_ok _ _ _ _ _ Hrun1).
  - intros k Hk. unfold table_keys, dict_keys in Hk.
    rewrite Hframe2, Hframe1; [done| |].
    + intros Hin. apply Hk, elem_of_app. by left.
    + intros Hin. apply Hk, elem_of_app. by right.
Qed.

(** A full run of [include_details] on a page that has its body and its
    posting infos: it returns, and outside the keys of the filter tables
    and ["address"] the record is the one the steps before [parse_attrs]
    build. *)
Lemma include_details_run soup result body ps u :
  soup_postingbody soup = Some body →
  soup_postinginfos soup = Some ps →
  forallb info_ok ps = true →
  result !! "url" = Some (VStr u) →
  reveal_ok (reveal E u) = true →
  tables_ok E = true →
  ∃ result', include_details E soup result = (Ok tt, result') ∧
    ∀ k, k ∉ table_keys E → k ≠ "address" →
         result' !! k = with_details E soup body ps u result !! k.
Proof.
  intros Hbody Hinfos Hok Hurl Hrv Htables.
  unfold include_details. rewrite Hbody, Hinfos.
  set (st1 := <["body" := VStr (PyStr.strip (PyStr.join (body_text body)))]> result).
  assert (H1 : setitem "body" (VStr (PyStr.strip (PyStr.join (body_text body)))) result
               = (Ok tt, st1)) by done.
  rewrite (bind_ok _ _ _ _ _ H1).
  assert (H2 : reveal_contact E st1 = (Ok tt, with_contact (reveal E u) st1)).
  { apply reveal_contact_run; [|done]. unfold st1. by rewrite lookup_insert_ne. }
  rewrite (bind_ok _ _ _ _ _ H2).
  rewrite (bind_ok _ _ _ _ _ (for_each_created ps _ Hok)).
  set (st3 := with_created ps (with_contact (reveal E u) st1)).
  set (images := collect_images (drop_repeated (soup_imgs soup)) []).
  assert (H4 : setitem "images" (VStrs images) st3 = (Ok tt, <["images" := VStrs images]> st3))
    by done.
  rewrite (bind_ok _ _ _ _ _ H4).
  set (attrs := collect_attrs (soup_attrgroups soup)).
  set (st5 := <["attrs" := VStrs attrs]> (<["images" := VStrs images]> st3)).
  assert (H5 : setitem "attrs" (VStrs attrs) (<["images" := VStrs images]> st3) = (Ok tt, st5))
    by done.
  cbv zeta. fold attrs.
  rewrite (bind_ok _ _ _ _ _ H5).
  assert (Hparse : ∃ st6, (match attrs with [] => mret tt | _ => parse_attrs E end) st5
                          = (Ok tt, st6) ∧ ∀ k, k ∉ table_keys E → st6 !! k = st5 !! k).
  { destruct attrs as [|a attrs'] eqn:Hattrs; [by exists st5|].
    apply (parse_attrs_run st5 (a :: attrs') Htables). unfold st5. apply lookup_insert_eq. }
  destruct Hparse as (st6 & H6 & Hframe).
  rewrite (bind_ok _ _ _ _ _ H6).
  destruct (soup_mapaddress soup) as [text|].
  - eexists. split; [done|]. intros k Hk Haddr.
    rewrite lookup_insert_ne by done. by apply Hframe.
  - eexists. split; [done|]. intros k Hk Haddr. by apply Hframe.
Qed.

Lemma with_created_posted pre p post time dt (st : gmap string (rvalue F)) :
  Forall (λ q, PyStr.contains "posted" (p_text q) = false) pre →
  Forall (λ q, PyStr.contains "posted" (p_text q) = false) post →
  PyStr.contains "posted" (p_text p) = true →
  p_time p = Some time → time !! "datetime" = Some dt →
  with_created (pre ++ p :: post) st = <["created" := VStr (created_text dt)]> st ∧
  forallb info_ok (pre ++ p :: post) = true.
Proof.
  intros Hpre Hpost Hp Htime Hdt. split.
  - unfold with_created. rewrite fold_left_app. simpl.
    fold (with_created pre st).
    fold (with_created post (with_created_one (with_created pre st) p)).
    rewrite with_created_skip by done. rewrite with_created_skip by done.
    unfold with_created_one. by rewrite Hp, Htime, Hdt.
  - rewrite forallb_app. simpl.
    rewrite !info_ok_skip by done.
    unfold info_ok. by rewrite Hp, Htime, Hdt.
Qed.

(** The creation time that a full run stores, for any [datetime] text. *)
Lemma include_details_created_text soup result body u pre p post time dt :
  soup_postingbody soup = Some body →
  soup_postinginfos soup = Some (pre ++ p :: post) →
  Forall (λ q, PyStr.contains "posted" (p_text q) = false) pre →
  Forall (λ q, PyStr.contains "posted" (p_text q) = false) post →
  PyStr.contains "posted" (p_text p) = true →
  p_time p = Some time → time !! "datetime" = Some dt →
  result !! "url" = Some (VStr u) →
  reveal_ok (reveal E u) = true →
  tables_ok E = true →
  "created" ∉ table_keys E →
  ∃ result', include_details E soup result = (Ok tt, result') ∧
             result' !! "created" = Some (VStr (created_text dt)).
Proof.
  intros Hbody Hinfos Hpre Hpost Hp Htime Hdt Hurl Hrv Htables Hkey.
  destruct (with_created_posted pre p post time dt
              (with_contact (reveal E u)
                 (<["body" := VStr (PyStr.strip (PyStr.join (body_text body)))]> result))
              Hpre Hpost Hp Htime Hdt) as [Hcreated Hok].
  destruct (include_details_run soup result body _ u Hbody Hinfos Hok Hurl Hrv Htables)
    as (result' & Hrun & Hframe).
  exists result'. split; [done|].
  rewrite Hframe by done. unfold with_details.
  rewrite !lookup_insert_ne by done.
  rewrite Hcreated. apply lookup_insert_eq.
Qed.

(** The image list that a full run stores. *)
Lemma include_details_images_eq soup result body ps u :
  soup_postingbody soup = Some body →
  soup_postinginfos soup = Some ps →
  forallb info_ok ps = true →
  result !! "url" = Some (VStr u) →
  reveal_ok (reveal E u) = true →
  tables_ok E = true →
  "images" ∉ table_keys E →
  ∃ result', include_details E soup result = (Ok tt, result') ∧
             result' !! "images"
               = Some (VStrs (upgrade <$> links (drop_repeated (soup_imgs soup)))).
Proof.
  intros Hbody Hinfos Hok Hurl Hrv Htables Hkey.
  destruct (include_details_run soup result body ps u Hbody Hinfos Hok Hurl Hrv Htables)
    as (result' & Hrun & Hframe).
  exists result'. split; [done|].
  rewrite Hframe by done. unfold with_details.
  rewrite lookup_insert_ne by done. rewrite lookup_insert_eq.
  by rewrite collect_images_eq.
Qed.

Lemma drop_repeated_more {A : Type} (first : A) (rest : list A) :
  rest ≠ [] → drop_repeated (first :: rest) = rest.
Proof. by destruct rest. Qed.

End EnrichmentProofs.

(** C3.  When the detail page has no body section, [include_details]
    returns normally, stores [True] under ["deleted"], and leaves every
    other key of the record as it was: no body, images, attrs, created,
    email, phone or address entry is added or changed. *)
Theorem include_details_marks_deleted {F : Type} (E : Env F) (soup : detail_soup)
    (result : gmap string (rvalue F)) :
  soup_postingbody soup = None →
  include_details E soup result = (Ok tt, <["deleted" := VBool true]> result) ∧
  (include_details E soup result).2 !! "deleted" = Some (VBool true) ∧
  ∀ key, key ≠ "deleted" → (include_details E soup result).2 !! key = result !! key.
Proof.
  intros Hbody. unfold include_details. rewrite Hbody. unfold setitem. simpl.
  split; [done|]. split; [apply lookup_insert_eq|].
  intros key Hkey. by apply lookup_insert_ne.
Qed.

Lemma include_details_marks_deleted_witness :
  include_details Examples.offline Examples.deleted_page Examples.a_summary
    = (Ok tt, <["deleted" := VBool true]> Examples.a_summary) ∧
  (include_details Examples.offline Examples.deleted_page Examples.a_summary).2 !! "body" = None.
Proof.
  destruct (include_details_marks_deleted Examples.offline Examples.deleted_page
              Examples.a_summary eq_refl) as (Heq & _ & Hframe).
  split; [exact Heq|].
  rewrite Hframe by discriminate. reflexivity.
Defined.

(** C9, as amended.  [geotag_result] leaves the record as it is when the
    page has no map element, and stores the complete pair under
    ["geotag"] when the map element carries both coordinate attributes and
    both read as floats.  In every other case it raises and the record is
    left untouched, so a half-filled geotag is never stored: a missing
    coordinate attribute is a [KeyError] on that attribute, an unreadable
    one a [ValueError] on its text, the latitude being read first. *)
Theorem geotag_result_complete_or_raises {F : Type} (E : Env F) (soup : detail_soup)
    (result : gmap string (rvalue F)) :
  (soup_map soup = None → geotag_result E soup result = (Ok tt, result)) ∧
  (∀ map_ lat_text lon_text lat lon,
     soup_map soup = Some map_ →
     map_ !! "data-latitude" = Some lat_text → map_ !! "data-longitude" = Some lon_text →
     float E lat_text = Some lat → float E lon_text = Some lon →
     geotag_result E soup result = (Ok tt, <["geotag" := VGeotag lat lon]> result)) ∧
  (∀ map_, soup_map soup = Some map_ → map_ !! "data-latitude" = None →
     geotag_result E soup result = (Raise (KeyError "data-latitude"), result)) ∧
  (∀ map_ lat_text lat, soup_map soup = Some map_ →
     map_ !! "data-latitude" = Some lat_text → float E lat_text = Some lat →
     map_ !! "data-longitude" = None →
     geotag_result E soup result = (Raise (KeyError "data-longitude"), result)) ∧
  (∀ map_ lat_text, soup_map soup = Some map_ →
     map_ !! "data-latitude" = Some lat_text → float E lat_text = None →
     geotag_result E soup result = (Raise (ValueError lat_text), result)) ∧
  (∀ map_ lat_text lat lon_text, soup_map soup = Some map_ →
     map_ !! "data-latitude" = Some lat_text → float E lat_text = Some lat →
     map_ !! "data-longitude" = Some lon_text → float E lon_text = None →
     geotag_result E soup result = (Raise (ValueError lon_text), result)) ∧
  ((∃ e, geotag_result E soup result = (Raise e, result)) ∨
   (geotag_result E soup result).1 = Ok tt ∧
   ((geotag_result E soup result).2 = result ∨
    ∃ lat lon, (geotag_result E soup result).2 = <["geotag" := VGeotag lat lon]> result)).
Proof.
  split; [apply geotag_result_no_map|].
  split.
  { intros map_ lat_text lon_text lat lon Hmap Hlat Hlon Hflat Hflon.
    rewrite (geotag_result_eval E soup map_ result Hmap). by rewrite Hlat, Hflat, Hlon, Hflon. }
  split.
  { intros map_ Hmap Hlat. rewrite (geotag_result_eval E soup map_ result Hmap). by rewrite Hlat. }
  split.
  { intros map_ lat_text lat Hmap Hlat Hflat Hlon.
    rewrite (geotag_result_eval E soup map_ result Hmap). by rewrite Hlat, Hflat, Hlon. }
  split.
  { intros map_ lat_text Hmap Hlat Hflat.
    rewrite (geotag_result_eval E soup map_ result Hmap). by rewrite Hlat, Hflat. }
  split.
  { intros map_ lat_text lat lon_text Hmap Hlat Hflat Hlon Hflon.
    rewrite (geotag_result_eval E soup map_ result Hmap).
    by rewrite Hlat, Hflat, Hlon, Hflon. }
  destruct (soup_map soup) as [map_|] eqn:Hmap.
  - rewrite (geotag_result_eval E soup map_ result Hmap).
    destruct (map_ !! "data-latitude") as [lat_text|]; [|left; eauto].
    destruct (float E lat_text) as [lat|]; [|left; eauto].
    destruct (map_ !! "data-longitude") as [lon_text|]; [|left; eauto].
    destruct (float E lon_text) as [lon|]; [|left; eauto].
    right. split; [done|]. right. by exists lat, lon.
  - rewrite (geotag_result_no_map E soup result Hmap). right. split; [done|]. by left.
Qed.

Lemma geotag_result_complete_or_raises_witness :
  geotag_result Examples.offline Examples.full_map_page Examples.a_summary
    = (Ok tt, <["geotag" := VGeotag 40 (-74)]> Examples.a_summary) ∧
  geotag_result Examples.offline Examples.deleted_page Examples.a_summary
    = (Ok tt, Examples.a_summary).
Proof.
  split.
  - destruct (geotag_result_complete_or_raises Examples.offline Examples.full_map_page
                Examples.a_summary) as (_ & Hfull & _).
    apply (Hfull {[ "data-latitude" := "40"; "data-longitude" := "-74" ]} "40" "-74");
      reflexivity.
  - destruct (geotag_result_complete_or_raises Examples.offline Examples.deleted_page
                Examples.a_summary) as (Hnone & _).
    apply Hnone. reflexivity.
Defined.

(** C9, counterexample to the statement as specified: a map element
    that carries only its longitude makes [geotag_result] raise, where the
    specification has it return with the geotag unset. *)
Lemma geotag_result_partial_raises :
  geotag_result Examples.offline Examples.partial_map_page Examples.a_summary
    = (Raise (KeyError "data-latitude"), Examples.a_summary).
Proof. reflexivity. Qed.

(** A listing row without its price span still parses, with ["price"]
    unset. *)
Example process_row_without_price :
  ∃ result,
    process_row Examples.offline Examples.row_without_price false false
      = ([], Ok (Some result)) ∧
    result !! "price" = Some VNone ∧ result !! "where" = Some (VStr "Brooklyn").
Proof. eexists. split; [reflexivity|]. split; reflexivity. Qed.

(** C7.  A listing row without its [div.meta] never binds [location]:
    building the record raises instead of leaving ["where"] unset. *)
Theorem process_row_without_meta_raises :
  process_row Examples.offline Examples.row_without_meta false false
    = ([], Raise (UnboundLocalError "location")).
Proof. reflexivity. Qed.

Section PaginationProofs.
Context {F : Type} (E : Env F).



(** [process_row] itself yields nothing. *)
Lemma process_row_yields_nothing r geotagged include_details_ :
  yielded (process_row E r geotagged include_details_).1 = [].
Proof.
  unfold process_row.
  repeat match goal with
         | |- context [match ?x with _ => _ end] => destruct x; try done
         end.
Qed.

Lemma yielded_app (evs evs' : list (event F)) :
  yielded (evs ++ evs') = yielded evs ++ yielded evs'.
Proof. apply omap_app. Qed.

(** Once the running count has reached the page's limit, the page
    yields nothing more. *)
Lemma rows_loop_starved limit geotagged include_details_ rows results_yielded total_so_far :
  limit ≤ results_yielded →
  rows_loop E limit geotagged include_details_ rows results_yielded total_so_far
    = ([], None, results_yielded, total_so_far).
Proof.
  intros Hle. destruct rows as [|r rest]; simpl; [done|].
  by rewrite (proj2 (Z.leb_le limit results_yielded) Hle).
Qed.

(** One step of the row loop below the limit. *)
Lemma rows_loop_step limit geotagged include_details_ r rest results_yielded total_so_far
    evs item :
  results_yielded < limit →
  process_row E r geotagged include_details_ = (evs, Ok item) →
  rows_loop E limit geotagged include_details_ (r :: rest) results_yielded total_so_far =
    let out := rows_loop E limit geotagged include_details_ rest
                         (results_yielded + 1) (total_so_far + 1) in
    (evs ++ EvYield item :: rows_events out, rows_error out,
     rows_results_yielded out, rows_total_so_far out).
Proof.
  intros Hlt Hrow. simpl.
  rewrite (proj2 (Z.leb_gt limit results_yielded) Hlt).
  rewrite Hrow.
  by destruct (rows_loop E limit geotagged include_details_ rest _ _) as [[[evs' err] ry] tsf].
Qed.

(** Both counters advance by the number of items the page yields,
    spacer rows included, and the running count never passes a limit
    it started below. *)
Lemma rows_loop_counters limit geotagged include_details_ rows :
  ∀ results_yielded total_so_far,
  let out := rows_loop E limit geotagged include_details_ rows results_yielded total_so_far in
  rows_results_yielded out = results_yielded + Z.of_nat (length (yielded (rows_events out))) ∧
  rows_total_so_far out = total_so_far + Z.of_nat (length (yielded (rows_events out))) ∧
  (results_yielded ≤ limit → rows_results_yielded out ≤ limit).
Proof.
  induction rows as [|r rest IH]; intros ry tsf; simpl.
  - unfold rows_results_yielded, rows_total_so_far, rows_events. simpl. lia.
  - destruct (limit <=? ry) eqn:Hle.
    + unfold rows_results_yielded, rows_total_so_far, rows_events. simpl. lia.
    + apply Z.leb_gt in Hle.
      pose proof (process_row_yields_nothing r geotagged include_details_) as Hny.
      destruct (process_row E r geotagged include_details_) as [evs [item|e]]; simpl in Hny.
      * specialize (IH (ry + 1) (tsf + 1)).
        destruct (rows_loop E limit geotagged include_details_ rest _ _)
          as [[[evs' err] ry'] tsf'].
        unfold rows_results_yielded, rows_total_so_far, rows_events in *. simpl in *.
        rewrite yielded_app, Hny. simpl. lia.
      * unfold rows_results_yielded, rows_total_so_far, rows_events. simpl.
        rewrite Hny. simpl. lia.
Qed.




(** With fuel left, a run of the loop starts with the request of the
    page at [start]. *)
Lemma pages_loop_first_request fuel filters geotagged include_details_
    start total_so_far results_yielded total :
  ∃ evs fin,
    pages_loop E (S fuel) filters geotagged include_details_
               start total_so_far results_yielded total
      = (EvGet (<["s" := PScalar (SInt start)]> filters) :: evs, fin).
Proof.
  simpl.
  destruct (requests_get E _) as [soup|]; [|by eexists _, _].
  destruct (if not_total total then get_results_approx_count soup else Ok total)
    as [total'|e]; [|by eexists _, _].
  destruct (page_ol soup) as [rows|]; [|by eexists _, _].
  destruct (ol_result_count rows) as [text|]; [|by eexists _, _].
  destruct (PyStr.int _) as [limit|]; [|by eexists _, _].
  destruct (rows_loop E limit geotagged include_details_ (ol_rows rows) _ _)
    as [[[evs err] ry'] tsf'].
  destruct err as [e|]; [by eexists _, _|].
  destruct (tsf' - start <? RESULTS_PER_REQUEST); [by eexists _, _|].
  destruct (pages_loop E fuel _ geotagged include_details_ tsf' tsf' ry' total')
    as [evs' fin].
  by eexists _, _.
Qed.

Lemma sort_key_valid sort_by :
  sort_by ∈ valid_sort_keys → ∃ v, dict_get sort_by sort_by_options = Some v.
Proof.
  unfold valid_sort_keys. intros H.
  repeat (apply elem_of_cons in H as [->|H]; [by eexists|]).
  by apply elem_of_nil in H.
Qed.

Lemma sort_key_invalid_empty v : dict_get EmptyString sort_by_options = Some v → False.
Proof. discriminate. Qed.

Lemma sort_key_invalid sort_by :
  sort_by ∉ valid_sort_keys → dict_get sort_by sort_by_options = None.
Proof.
  unfold valid_sort_keys. intros H. unfold sort_by_options, dict_get.
  destruct (String.eqb_spec "newest" sort_by) as [<-|_]; [exfalso; apply H; set_solver|].
  destruct (String.eqb_spec "price_asc" sort_by) as [<-|_]; [exfalso; apply H; set_solver|].
  destruct (String.eqb_spec "price_desc" sort_by) as [<-|_]; [exfalso; apply H; set_solver|].
  done.
Qed.

(** A page of [n] copies of a row that parses, below the limit. *)
Lemma rows_loop_replicate limit geotagged include_details_ r item n :
  process_row E r geotagged include_details_ = ([], Ok item) →
  ∀ results_yielded total_so_far,
  results_yielded + Z.of_nat n ≤ limit →
  rows_loop E limit geotagged include_details_ (replicate n r) results_yielded total_so_far
    = (replicate n (EvYield item), None,
       results_yielded + Z.of_nat n, total_so_far + Z.of_nat n).
Proof.
  intros Hrow. induction n as [|n IH]; intros ry tsf Hle.
  - simpl. by rewrite !Z.add_0_r.
  - change (replicate (S n) r) with (r :: replicate n r).
    rewrite (rows_loop_step limit geotagged include_details_ r (replicate n r)
               ry tsf [] item) by (done || lia).
    rewrite IH by lia. unfold rows_events, rows_error, rows_results_yielded, rows_total_so_far.
    simpl.
    replace (ry + 1 + Z.of_nat n) with (ry + Z.of_nat (S n)) by lia.
    by replace (tsf + 1 + Z.of_nat n) with (tsf + Z.of_nat (S n)) by lia.
Qed.

(** One turn of the page loop whose requests and parses succeed. *)
Lemma pages_loop_page fuel filters geotagged include_details_ start total_so_far
    results_yielded total soup total' rows text limit evs results_yielded' total_so_far' :
  requests_get E (<["s" := PScalar (SInt start)]> filters) = Some soup →
  (if not_total total then get_results_approx_count soup else Ok total) = Ok total' →
  page_ol soup = Some rows →
  ol_result_count rows = Some text →
  PyStr.int (PyStr.split_first " " text) = Some limit →
  rows_loop E limit geotagged include_details_ (ol_rows rows) results_yielded total_so_far
    = (evs, None, results_yielded', total_so_far') →
  pages_loop E (S fuel) filters geotagged include_details_
             start total_so_far results_yielded total =
    if total_so_far' - start <? RESULTS_PER_REQUEST
    then (EvGet (<["s" := PScalar (SInt start)]> filters) :: evs, Exhausted)
    else
      let next := pages_loop E fuel (<["s" := PScalar (SInt start)]> filters)
                             geotagged include_details_
                             total_so_far' total_so_far' results_yielded' total' in
      (EvGet (<["s" := PScalar (SInt start)]> filters) :: evs ++ next.1, next.2).
Proof.
  intros Hget Htotal Hol Hcount Hint Hrows.
  change (pages_loop E (S fuel) filters geotagged include_details_
                     start total_so_far results_yielded total)
    with (let filters := <["s" := PScalar (SInt start)]> filters in
          match requests_get E filters with
          | None => ([EvGet filters], Exhausted)
          | Some soup =>
              match (if not_total total then get_results_approx_count soup else Ok total) with
              | Raise e => ([EvGet filters], Raised e)
              | Ok total =>
                  match page_ol soup with
                  | None => ([EvGet filters], Raised (AttributeError "find"))
                  | Some rows =>
                      match ol_result_count rows with
                      | None => ([EvGet filters], Raised (AttributeError "text"))
                      | Some text =>
                          match PyStr.int (PyStr.split_first " " text) with
                          | None =>
                              ([EvGet filters], Raised (ValueError (PyStr.split_first " " text)))
                          | Some limit =>
                              let '(evs, err, results_yielded, total_so_far) :=
                                rows_loop E limit geotagged include_details_ (ol_rows rows)
                                          results_yielded total_so_far in
                              match err with
                              | Some e => (EvGet filters :: evs, Raised e)
                              | None =>
                                  if total_so_far - start <? RESULTS_PER_REQUEST
                                  then (EvGet filters :: evs, Exhausted)
                                  else
                                    let '(evs', fin) :=
                                      pages_loop E fuel filters geotagged include_details_
                                                 total_so_far total_so_far
                                                 results_yielded total in
                                    (EvGet filters :: evs ++ evs', fin)
                              end
                          end
                      end
                  end
              end
          end).
  cbv zeta. rewrite Hget, Htotal, Hol, Hcount, Hint, Hrows.
  destruct (total_so_far' - start <? RESULTS_PER_REQUEST); [done|].
  by destruct (pages_loop E fuel _ geotagged include_details_ _ _ _ _).
Qed.

(** A listing row that has its identifier, link and meta line parses
    into a record whatever else is missing: an absent price span leaves
    ["price"] unset. *)
Lemma process_row_summary r id link href meta_text :
  row_spacer r = false →
  row_attrs r !! "data-pid" = Some id →
  row_link r = Some link → link !! "href" = Some href →
  row_meta r = Some meta_text →
  process_row E r false false =
    ([], Ok (Some (summary id (row_attrs r !! "data-repost-of") (row_attrs r !! "title")
                           (urljoin E (url E) href) (row_priceinfo r)
                           (List.last (PyStr.split middle_dot meta_text) EmptyString)
                           (row_dots r)))).
Proof.
  intros Hs Hid Hlink Hhref Hmeta. unfold process_row.
  by rewrite Hs, Hid, Hlink, Hhref, Hmeta.
Qed.

Lemma summary_price id repost_of name u (price : option string) location has_pic :
  @summary F id repost_of name u price location has_pic !! "price" = Some (opt_str price).
Proof. unfold summary. by rewrite !lookup_insert_ne, lookup_insert_eq by done. Qed.

(** Without the meta line the row raises, whatever else it has. *)
Lemma process_row_no_meta r id link href geotagged include_details_ :
  row_spacer r = false →
  row_attrs r !! "data-pid" = Some id →
  row_link r = Some link → link !! "href" = Some href →
  row_meta r = None →
  process_row E r geotagged include_details_ = ([], Raise (UnboundLocalError "location")).
Proof.
  intros Hs Hid Hlink Hhref Hmeta. unfold process_row.
  by rewrite Hs, Hid, Hlink, Hhref, Hmeta.
Qed.


End PaginationProofs.

(** C1.  The running count [results_yielded] is never reset, so the
    comparison with a page's declared count is not per page: after a first
    page of a hundred rows, a second page that declares a hundred results
    and holds a hundred rows yields nothing, and the run ends there. *)
Theorem get_results_second_page_starved :
  Examples.two_page_site {["s" := PScalar (SInt 100)]}
    = Some (Examples.search_page "100" (replicate 100 (Examples.listing_row "2"))) ∧
  get_results (Examples.env Examples.two_page_site (λ _, None) Examples.no_reveal)
              5 ∅ None 0 None false false
    = (EvGet {["s" := PScalar (SInt 0)]}
         :: replicate 100 (EvYield (Some (Examples.listing_record "1")))
         ++ [EvGet {["s" := PScalar (SInt 100)]}],
       Exhausted).
Proof.
  split; [reflexivity|].
  unfold get_results.
  rewrite (pages_loop_page _ 4 ∅ false false 0 0 0 (Some 0)
             (Examples.search_page "100" (replicate 100 (Examples.listing_row "1")))
             (Some 250) (Examples.result_list "100" (replicate 100 (Examples.listing_row "1")))
             "100 results" 100
             (replicate 100 (EvYield (Some (Examples.listing_record "1")))) 100 100);
    [|reflexivity|reflexivity|reflexivity|reflexivity|reflexivity|].
  - rewrite (pages_loop_page _ 3 _ false false 100 100 100 (Some 250)
               (Examples.search_page "100" (replicate 100 (Examples.listing_row "2")))
               (Some 250) (Examples.result_list "100" (replicate 100 (Examples.listing_row "2")))
               "100 results" 100 [] 100 100);
      [reflexivity|reflexivity|reflexivity|reflexivity|reflexivity|reflexivity|].
    by apply rows_loop_starved.
  - by apply (rows_loop_replicate _ 100 false false (Examples.listing_row "1")
                (Some (Examples.listing_record "1")) 100).
Qed.




(** C5, as amended.  A non-empty sort key outside the three valid ones
    makes the run log and raise the descriptive [ValueError] at once, with
    no request before it.  A valid key is resolved into the ["sort"]
    parameter; for it, and for an absent or empty key (which skips the
    check), the run goes on to request the first page. *)
Theorem get_results_checks_sort_key {F : Type} (E : Env F) (fuel : nat)
    (filters : gmap string pvalue) (limit : option Z) (start : Z) (sort_by : string)
    (geotagged include_details_ : bool) :
  (sort_by ≠ EmptyString → sort_by ∉ valid_sort_keys →
     get_results E fuel filters limit start (Some sort_by) geotagged include_details_
       = ([EvLogError (sort_by_message sort_by)],
          Raised (ValueError (sort_by_message sort_by)))) ∧
  (sort_by ∈ valid_sort_keys →
     ∃ v evs fin,
       dict_get sort_by sort_by_options = Some v ∧
       get_results E (S fuel) filters limit start (Some sort_by) geotagged include_details_
         = (EvGet (<["s" := PScalar (SInt start)]> (<["sort" := PScalar (SStr v)]> filters))
              :: evs, fin)) ∧
  (∃ evs fin,
     get_results E (S fuel) filters limit start (Some EmptyString) geotagged include_details_
       = (EvGet (<["s" := PScalar (SInt start)]> filters) :: evs, fin)) ∧
  (∃ evs fin,
     get_results E (S fuel) filters limit start None geotagged include_details_
       = (EvGet (<["s" := PScalar (SInt start)]> filters) :: evs, fin)).
Proof.
  split; [|split; [|split]].
  - intros Hne Hinvalid. unfold get_results.
    destruct sort_by as [|c key]; [done|].
    by rewrite (sort_key_invalid _ Hinvalid).
  - intros Hvalid. destruct (sort_key_valid _ Hvalid) as [v Hv].
    destruct (pages_loop_first_request E fuel (<["sort" := PScalar (SStr v)]> filters)
                geotagged include_details_ start start 0 (Some 0)) as (evs & fin & Hrun).
    exists v, evs, fin. split; [done|]. unfold get_results.
    destruct sort_by as [|c key]; [by apply sort_key_invalid_empty in Hv|].
    by rewrite Hv.
  - apply pages_loop_first_request.
  - apply pages_loop_first_request.
Qed.

Lemma get_results_checks_sort_key_witness :
  get_results Examples.offline 1 ∅ None 0 (Some "oldest") false false
    = ([EvLogError (sort_by_message "oldest")], Raised (ValueError (sort_by_message "oldest"))) ∧
  ∃ evs fin,
    get_results Examples.offline 1 ∅ None 0 (Some "newest") false false
      = (EvGet (<["s" := PScalar (SInt 0)]> (<["sort" := PScalar (SStr "date")]> ∅)) :: evs, fin).
Proof.
  destruct (get_results_checks_sort_key Examples.offline 0 ∅ None 0 "oldest" false false)
    as (Hbad & _).
  destruct (get_results_checks_sort_key Examples.offline 0 ∅ None 0 "newest" false false)
    as (_ & Hgood & _).
  split.
  - apply Hbad; [discriminate|].
    unfold valid_sort_keys. intros H.
    apply elem_of_cons in H as [H|H]; [discriminate|].
    apply elem_of_cons in H as [H|H]; [discriminate|].
    apply elem_of_cons in H as [H|H]; [discriminate|].
    by apply elem_of_nil in H.
  - destruct Hgood as (v & evs & fin & Hv & Hrun); [unfold valid_sort_keys; by left|].
    injection Hv as <-. by exists evs, fin.
Defined.

(** C5, counterexample to the statement as specified: the empty string
    is not a valid sort key, yet the run does not raise and goes on to its
    first request. *)
Lemma get_results_empty_sort_key_accepted :
  (EmptyString ∉ valid_sort_keys) ∧
  get_results Examples.offline 5 ∅ None 0 (Some EmptyString) false false
    = ([EvGet {["s" := PScalar (SInt 0)]}], Exhausted).
Proof.
  split; [|reflexivity].
  unfold valid_sort_keys. intros H.
  apply elem_of_cons in H as [H|H]; [discriminate|].
  apply elem_of_cons in H as [H|H]; [discriminate|].
  apply elem_of_cons in H as [H|H]; [discriminate|].
  by apply elem_of_nil in H.
Qed.

(** The creation time when the offset is written without a colon: on a
    live page whose posting infos hold one posted entry, with a [<time>]
    whose [datetime] attribute is ["2023-01-01T10:30:00-0500"],
    [include_details] returns and stores exactly ["2023-01-01 10:30"]
    under ["created"].  The page is live when it has its body, the
    session answers, and the filter tables are well formed and have no key
    named ["created"]. *)
Theorem include_details_created {F : Type} (E : Env F) (soup : detail_soup)
    (result : gmap string (rvalue F)) (body : list body_child) (u : string)
    (pre post : list info_p) (p : info_p) (time : gmap string string) :
  soup_postingbody soup = Some body →
  soup_postinginfos soup = Some (pre ++ p :: post) →
  Forall (λ q, PyStr.contains "posted" (p_text q) = false) pre →
  Forall (λ q, PyStr.contains "posted" (p_text q) = false) post →
  PyStr.contains "posted" (p_text p) = true →
  p_time p = Some time →
  time !! "datetime" = Some "2023-01-01T10:30:00-0500" →
  result !! "url" = Some (VStr u) →
  reveal_ok (reveal E u) = true →
  tables_ok E = true →
  "created" ∉ table_keys E →
  ∃ result', include_details E soup result = (Ok tt, result') ∧
             result' !! "created" = Some (VStr "2023-01-01 10:30").
Proof.
  intros Hbody Hinfos Hpre Hpost Hp Htime Hdt Hurl Hrv Htables Hkey.
  apply (include_details_created_text E soup result body u pre p post time
           "2023-01-01T10:30:00-0500"); done.
Qed.

Lemma include_details_created_witness :
  ∃ result',
    include_details Examples.revealing
      (Examples.detail_page "2023-01-01T10:30:00-0500" [Examples.thumb "a"])
      Examples.a_summary = (Ok tt, result') ∧
    result' !! "created" = Some (VStr "2023-01-01 10:30").
Proof.
  apply (include_details_created Examples.revealing
           (Examples.detail_page "2023-01-01T10:30:00-0500" [Examples.thumb "a"])
           Examples.a_summary
           [NavigableString " A good bike. "; Tag true "QR Code Link to This Post"]
           "https://newyork.craigslist.org/bik/7001.html"
           [ {| p_text := "post id: 7001"; p_time := None |} ] []
           (Examples.posted_at "2023-01-01T10:30:00-0500")
           {[ "datetime" := "2023-01-01T10:30:00-0500" ]}).
  - reflexivity.
  - reflexivity.
  - repeat constructor.
  - constructor.
  - reflexivity.
  - reflexivity.
  - reflexivity.
  - reflexivity.
  - reflexivity.
  - reflexivity.
  - unfold table_keys. simpl. intros H.
    repeat (apply elem_of_cons in H as [H|H]; [discriminate|]).
    by apply elem_of_nil in H.
Defined.

(** C4.  A posted entry whose [datetime] attribute writes Jan 1 2023
    10:30:00 with the offset as [-05:00] does not give the creation time
    ["2023-01-01 10:30"]: the text is cut at its last colon, which is the
    one inside the offset, so the stored text keeps the seconds and half
    of the time zone. *)
Theorem include_details_created_colon_offset :
  (include_details Examples.revealing
     (Examples.detail_page "2023-01-01T10:30:00-05:00" [Examples.thumb "a"])
     Examples.a_summary).1 = Ok tt ∧
  (include_details Examples.revealing
     (Examples.detail_page "2023-01-01T10:30:00-05:00" [Examples.thumb "a"])
     Examples.a_summary).2 !! "created" = Some (VStr "2023-01-01 10:30:00-05").
Proof. split; vm_compute; reflexivity. Qed.

(** C8, as amended.  On a page that has its body section and its
    posting-info block, every posted entry's [<time>] carrying its
    [datetime], processed while the session answers and with well-formed
    filter tables that have no key named ["images"], [include_details]
    stores under ["images"] the links of its image tags with the thumbnail
    token replaced by the larger one.  With more than one tag, exactly the
    first is dropped and every link among the remaining tags is kept,
    upgraded and in order; a single image is kept and upgraded.  (A tag
    without [src] has no link to keep.) *)
Theorem include_details_images {F : Type} (E : Env F) (soup : detail_soup)
    (result : gmap string (rvalue F)) (body : list body_child) (ps : list info_p)
    (u : string) :
  soup_postingbody soup = Some body →
  soup_postinginfos soup = Some ps →
  forallb info_ok ps = true →
  result !! "url" = Some (VStr u) →
  reveal_ok (reveal E u) = true →
  tables_ok E = true →
  "images" ∉ table_keys E →
  ∃ result', include_details E soup result = (Ok tt, result') ∧
    (∀ first rest, soup_imgs soup = first :: rest → rest ≠ [] →
       result' !! "images" = Some (VStrs (upgrade <$> links rest))) ∧
    (∀ img src, soup_imgs soup = [img] → img !! "src" = Some src →
       result' !! "images" = Some (VStrs [upgrade src])).
Proof.
  intros Hbody Hinfos Hok Hurl Hrv Htables Hkey.
  destruct (include_details_images_eq E soup result body ps u
              Hbody Hinfos Hok Hurl Hrv Htables Hkey) as (result' & Hrun & Himages).
  exists result'. split; [done|]. split.
  - intros first rest Himgs Hrest. rewrite Himages, Himgs.
    by rewrite drop_repeated_more.
  - intros img src Himgs Hsrc. rewrite Himages, Himgs.
    unfold drop_repeated, links. simpl. by rewrite Hsrc.
Qed.

Lemma include_details_images_witness :
  ∃ result',
    include_details Examples.revealing
      (Examples.detail_page "2023-01-01T10:30:00-0500"
         [Examples.thumb "a"; Examples.thumb "b"; ∅; Examples.thumb "c"])
      Examples.a_summary = (Ok tt, result') ∧
    result' !! "images"
      = Some (VStrs [ "https://images.craigslist.org/b_600x450.jpg";
                      "https://images.craigslist.org/c_600x450.jpg" ]).
Proof.
  destruct (include_details_images Examples.revealing
              (Examples.detail_page "2023-01-01T10:30:00-0500"
                 [Examples.thumb "a"; Examples.thumb "b"; ∅; Examples.thumb "c"])
              Examples.a_summary
              [NavigableString " A good bike. "; Tag true "QR Code Link to This Post"]
              [ {| p_text := "post id: 7001"; p_time := None |};
                Examples.posted_at "2023-01-01T10:30:00-0500" ]
              "https://newyork.craigslist.org/bik/7001.html")
    as (result' & Hrun & Hmore & _).
  - reflexivity.
  - reflexivity.
  - reflexivity.
  - reflexivity.
  - reflexivity.
  - reflexivity.
  - unfold table_keys. simpl. intros H.
    repeat (apply elem_of_cons in H as [H|H]; [discriminate|]).
    by apply elem_of_nil in H.
  - exists result'. split; [exact Hrun|].
    rewrite (Hmore (Examples.thumb "a") [Examples.thumb "b"; ∅; Examples.thumb "c"]);
      [reflexivity|reflexivity|discriminate].
Defined.

(** C8, counterexample to the statement as specified: four pages with two
    thumbnails each on which no image list is stored.  A page without its
    body section is marked deleted and left at that; a page without its
    posting-info block, a posted entry whose [<time>] has no [datetime],
    and a session that cannot load the page each end the call before the
    image step. *)
Lemma include_details_images_not_reached :
  (include_details Examples.revealing MoreExamples.deleted_with_images Examples.a_summary
     = (Ok tt, <["deleted" := VBool true]> Examples.a_summary) ∧
   (<["deleted" := VBool true]> Examples.a_summary : gmap string (rvalue Z)) !! "images"
     = None) ∧
  ((include_details Examples.revealing MoreExamples.no_infos_page Examples.a_summary).1
     = Raise (AttributeError "find_all") ∧
   (include_details Examples.revealing MoreExamples.no_infos_page Examples.a_summary).2
     !! "images" = None) ∧
  ((include_details Examples.revealing MoreExamples.undated_page Examples.a_summary).1
     = Raise (KeyError "datetime") ∧
   (include_details Examples.revealing MoreExamples.undated_page Examples.a_summary).2
     !! "images" = None) ∧
  ((include_details MoreExamples.unreachable
      (Examples.detail_page "2023-01-01T10:30:00-0500" MoreExamples.two_thumbs)
      Examples.a_summary).1 = Raise WebDriverException ∧
   (include_details MoreExamples.unreachable
      (Examples.detail_page "2023-01-01T10:30:00-0500" MoreExamples.two_thumbs)
      Examples.a_summary).2 !! "images" = None).
Proof. repeat split; vm_compute; reflexivity. Qed.

(** ** Further properties of the filter model *)

Section MoreFilterProofs.
Context {F : Type} (E : Env F).

Lemma apply_filter_log st kv :
  (apply_filter E st kv).2 = st.2 ++ entry_warnings E kv.
Proof.
  destruct st as [parsed log], kv as [key v]. unfold entry_warnings. simpl.
  destruct (find_filter E key) as [f|]; [|done].
  destruct (value f) as [|valid_options|lit]; simpl.
  - by rewrite app_nil_r.
  - by rewrite resolve_options_eq.
  - destruct (truthy v); simpl; by rewrite app_nil_r.
Qed.

Lemma fold_apply_filter_log fs : ∀ st,
  (fold_left (apply_filter E) fs st).2 = st.2 ++ concat (entry_warnings E <$> fs).
Proof.
  induction fs as [|kv fs IH]; intros st; simpl.
  - by rewrite app_nil_r.
  - by rewrite IH, apply_filter_log, <- app_assoc.
Qed.

Lemma fold_apply_filter_split pre kv post st :
  fold_left (apply_filter E) (pre ++ kv :: post) st
    = fold_left (apply_filter E) post (apply_filter E (fold_left (apply_filter E) pre st) kv).
Proof. by rewrite fold_left_app. Qed.

End MoreFilterProofs.

(** X1.  The fixed anti-nearby parameter survives every request in
    which no requested filter resolves to the provider key
    ["searchNearby"] itself. *)
Theorem get_filters_keeps_search_nearby {F : Type} (E : Env F)
    (filters : option (list (string * pvalue))) :
  (∀ key v f, (key, v) ∈ default [] filters → find_filter E key = Some f →
     url_key f ≠ "searchNearby") →
  get_filters E filters !! "searchNearby" = Some (PScalar (SInt 1)).
Proof.
  intros Hother. unfold get_filters, get_filters_log.
  rewrite fold_apply_filter_other_key by done. apply lookup_singleton_eq.
Qed.

Lemma get_filters_keeps_search_nearby_witness :
  get_filters Examples.offline (Some Examples.unresolved_request) !! "searchNearby"
    = Some (PScalar (SInt 1)).
Proof.
  apply get_filters_keeps_search_nearby.
  intros key v f Hin. simpl in Hin. unfold Examples.unresolved_request in Hin.
  apply elem_of_cons in Hin as [[= -> ->]|Hin]; [intros [= <-]; discriminate|].
  apply elem_of_cons in Hin as [[= -> ->]|Hin]; [intros [= <-]; discriminate|].
  apply elem_of_cons in Hin as [[= -> ->]|Hin]; [intros [= <-]; discriminate|].
  by apply elem_of_nil in Hin.
Defined.

(** X2.  The last requested filter that resolves to a provider key decides
    that parameter: a pass-through filter sends the caller's value as it
    is, a list filter the codes of its resolved options, a flag filter its
    literal when the caller's value is truthy; a flag with a falsy value
    writes nothing and leaves what the earlier entries produced. *)
Theorem get_filters_last_writer {F : Type} (E : Env F)
    (filters : option (list (string * pvalue)))
    (pre post : list (string * pvalue)) (key : string) (v : pvalue) (f : filter_spec) :
  default [] filters = pre ++ (key, v) :: post →
  find_filter E key = Some f →
  (∀ key' v' f', (key', v') ∈ post → find_filter E key' = Some f' → url_key f' ≠ url_key f) →
  get_filters E filters !! url_key f =
    match value f with
    | SpNone => Some v
    | SpDict valid_options => Some (PList (omap (lookup_option valid_options) (force_list v)))
    | SpLit lit =>
        if truthy v then Some (PScalar lit) else get_filters E (Some pre) !! url_key f
    end.
Proof.
  intros Hfs Hf Hpost. unfold get_filters, get_filters_log.
  rewrite Hfs, fold_apply_filter_split. simpl.
  rewrite fold_apply_filter_other_key by done.
  destruct (fold_left (apply_filter E) pre _) as [parsed log]. simpl. rewrite Hf.
  destruct (value f) as [|valid_options|lit]; simpl.
  - apply lookup_insert_eq.
  - rewrite resolve_options_eq. simpl. apply lookup_insert_eq.
  - destruct (truthy v); simpl; [apply lookup_insert_eq|done].
Qed.

Lemma get_filters_last_writer_witness :
  get_filters Examples.offline (Some Examples.example_request) !! "hasPic" = None ∧
  get_filters Examples.offline (Some Examples.unresolved_request) !! "postal"
    = Some (PScalar (SInt 11249)).
Proof.
  split.
  - refine (get_filters_last_writer Examples.offline (Some Examples.example_request)
              [ ("query", PScalar (SStr "apple"));
                ("condition", PList [SStr "new"; SStr "mint"]);
                ("bogus", PScalar (SInt 1)) ] []
              "has_image" (PScalar (SBool false))
              {| url_key := "hasPic"; value := SpLit (SInt 1); attr := None |}
              eq_refl eq_refl _).
    intros key' v' f' Hin. by apply elem_of_nil in Hin.
  - refine (get_filters_last_writer Examples.offline (Some Examples.unresolved_request)
              [ ("query", PScalar (SStr "apple"));
                ("condition", PList [SStr "mint"; SInt 3]) ] []
              "zip_code" (PScalar (SInt 11249))
              {| url_key := "postal"; value := SpNone; attr := None |}
              eq_refl eq_refl _).
    intros key' v' f' Hin. by apply elem_of_nil in Hin.
Defined.

(** X3.  The warnings of a call are exactly the warnings of its entries,
    in the order of the request: one for a key found in no table, one for
    each option of a list filter that does not resolve, none for anything
    else. *)
Theorem get_filters_log_exact {F : Type} (E : Env F)
    (filters : option (list (string * pvalue))) :
  (get_filters_log E filters).2 = concat (entry_warnings E <$> default [] filters).
Proof. unfold get_filters_log. by rewrite fold_apply_filter_log. Qed.

(** ** Further properties of the row parser *)

Section MoreRowProofs.
Context {F : Type} (E : Env F).

Lemma summary_dom id repost_of name u price location has_pic :
  dom (@summary F id repost_of name u price location has_pic) = summary_keys.
Proof.
  unfold summary, summary_keys. rewrite !dom_insert_L, dom_empty_L. simpl. set_solver.
Qed.

Lemma summary_deleted id repost_of name u price location has_pic :
  @summary F id repost_of name u price location has_pic !! "deleted" = Some (VBool false).
Proof. unfold summary. by rewrite !lookup_insert_ne, lookup_insert_eq by done. Qed.

Lemma summary_geotag id repost_of name u price location has_pic :
  @summary F id repost_of name u price location has_pic !! "geotag" = Some VNone.
Proof. unfold summary. by rewrite !lookup_insert_ne, lookup_insert_eq by done. Qed.

Lemma summary_url id repost_of name u price location has_pic :
  @summary F id repost_of name u price location has_pic !! "url" = Some (VStr u).
Proof. unfold summary. by rewrite !lookup_insert_ne, lookup_insert_eq by done. Qed.

(** What a row gives when it is parsed without enrichment. *)
Lemma process_row_plain r :
  process_row E r false false =
    if row_spacer r then ([], Ok None)
    else
      match row_attrs r !! "data-pid" with
      | None => ([], Raise (KeyError "data-pid"))
      | Some id =>
          match row_link r with
          | None => ([], Raise (AttributeError "attrs"))
          | Some link =>
              match link !! "href" with
              | None => ([], Raise (KeyError "href"))
              | Some href =>
                  match row_meta r with
                  | None => ([], Raise (UnboundLocalError "location"))
                  | Some meta_text =>
                      ([], Ok (Some (summary id (row_attrs r !! "data-repost-of")
                                       (row_attrs r !! "title") (urljoin E (url E) href)
                                       (row_priceinfo r)
                                       (List.last (PyStr.split middle_dot meta_text) EmptyString)
                                       (row_dots r))))
                  end
              end
          end
      end.
Proof. done. Qed.

End MoreRowProofs.

(** X4.  Without enrichment, [process_row] returns a record exactly for
    the rows that are not spacers and have their [data-pid] attribute,
    their main link with an [href], and their meta line; every other row
    that is not a spacer raises. *)
Theorem process_row_returns_iff {F : Type} (E : Env F) (r : row) :
  ((∃ result, process_row E r false false = ([], Ok (Some result))) ↔
   row_spacer r = false ∧ is_Some (row_attrs r !! "data-pid") ∧
   (∃ link, row_link r = Some link ∧ is_Some (link !! "href")) ∧
   is_Some (row_meta r)) ∧
  (row_spacer r = false →
   ¬ (is_Some (row_attrs r !! "data-pid") ∧
      (∃ link, row_link r = Some link ∧ is_Some (link !! "href")) ∧
      is_Some (row_meta r)) →
   ∃ e, process_row E r false false = ([], Raise e)).
Proof.
  rewrite process_row_plain. split; [split|].
  - intros [result Hrow].
    destruct (row_spacer r); [done|].
    destruct (row_attrs r !! "data-pid") as [id|]; [|done].
    destruct (row_link r) as [link|]; [|done].
    destruct (link !! "href") as [href|] eqn:Hhref; [|done].
    destruct (row_meta r) as [meta_text|]; [|done].
    repeat split; eauto.
  - intros (Hs & [id Hid] & (link & Hlink & [href Hhref]) & [meta_text Hmeta]).
    rewrite Hs, Hid, Hlink, Hhref, Hmeta. by eexists.
  - intros -> Hnot.
    destruct (row_attrs r !! "data-pid") as [id|]; [|by eexists].
    destruct (row_link r) as [link|]; [|by eexists].
    destruct (link !! "href") as [href|] eqn:Hhref; [|by eexists].
    destruct (row_meta r) as [meta_text|]; [|by eexists].
    exfalso. apply Hnot. repeat split; eauto.
Qed.

Lemma process_row_returns_iff_witness :
  (∃ result, process_row Examples.offline (Examples.listing_row "1") false false
               = ([], Ok (Some result))) ∧
  ∃ e, process_row Examples.offline Examples.row_without_meta false false = ([], Raise e).
Proof.
  split.
  - apply (process_row_returns_iff Examples.offline (Examples.listing_row "1")).
    split; [reflexivity|]. split; [by eexists|]. split; [|by eexists].
    eexists. split; [reflexivity|]. by eexists.
  - apply (process_row_returns_iff Examples.offline Examples.row_without_meta);
      [reflexivity|].
    intros (_ & _ & [meta_text Hmeta]). discriminate.
Defined.

(** X5.  A record returned without enrichment has exactly the eleven
    summary keys, is not marked deleted, carries no geotag, and cost no
    request. *)
Theorem process_row_summary_shape {F : Type} (E : Env F) (r : row)
    (evs : list (event F)) (result : gmap string (rvalue F)) :
  process_row E r false false = (evs, Ok (Some result)) →
  evs = [] ∧ dom result = summary_keys ∧
  result !! "deleted" = Some (VBool false) ∧ result !! "geotag" = Some VNone ∧
  result !! "id" = VStr <$> (row_attrs r !! "data-pid").
Proof.
  rewrite process_row_plain.
  destruct (row_spacer r); [done|].
  destruct (row_attrs r !! "data-pid") as [id|]; [|done].
  destruct (row_link r) as [link|]; [|done].
  destruct (link !! "href") as [href|]; [|done].
  destruct (row_meta r) as [meta_text|]; [|done].
  intros [= <- <-]. split; [done|].
  split; [apply summary_dom|]. split; [apply summary_deleted|].
  split; [apply summary_geotag|]. unfold summary. by rewrite lookup_insert_eq.
Qed.

Lemma process_row_summary_shape_witness :
  dom (Examples.listing_record "1") = summary_keys ∧
  Examples.listing_record "1" !! "id" = Some (VStr "1").
Proof.
  destruct (process_row_summary_shape Examples.offline (Examples.listing_row "1")
              [] (Examples.listing_record "1") eq_refl) as (_ & Hdom & _ & _ & Hid).
  split; [exact Hdom|exact Hid].
Defined.

(** X6.  When enrichment is asked for and the detail page cannot be
    fetched, the row still gives its plain summary record, after exactly
    one request for the record's own URL. *)
Theorem process_row_detail_unavailable {F : Type} (E : Env F) (r : row)
    (geotagged include_details_ : bool) (result : gmap string (rvalue F)) (u : string) :
  process_row E r false false = ([], Ok (Some result)) →
  result !! "url" = Some (VStr u) →
  geotagged || include_details_ = true →
  fetch_content E u = None →
  process_row E r geotagged include_details_ = ([EvFetchContent u], Ok (Some result)).
Proof.
  rewrite process_row_plain. unfold process_row.
  destruct (row_spacer r); [done|].
  destruct (row_attrs r !! "data-pid") as [id|]; [|done].
  destruct (row_link r) as [link|]; [|done].
  destruct (link !! "href") as [href|]; [|done].
  destruct (row_meta r) as [meta_text|]; [|done].
  intros [= <-]. rewrite summary_url. intros [= <-] -> Hfetch. by rewrite Hfetch.
Qed.

Lemma process_row_detail_unavailable_witness :
  process_row Examples.offline (Examples.listing_row "1") true true
    = ([EvFetchContent "https://newyork.craigslist.org/bik/1.html"],
       Ok (Some (Examples.listing_record "1"))).
Proof.
  apply (process_row_detail_unavailable Examples.offline (Examples.listing_row "1")
           true true (Examples.listing_record "1")
           "https://newyork.craigslist.org/bik/1.html"); reflexivity.
Defined.

(** X7.  When details are asked for and the fetched page has no body
    section, the row gives its summary record with ["deleted"] set and
    nothing else added or changed. *)
Theorem process_row_deleted_posting {F : Type} (E : Env F) (r : row)
    (result : gmap string (rvalue F)) (u : string) (soup : detail_soup) :
  process_row E r false false = ([], Ok (Some result)) →
  result !! "url" = Some (VStr u) →
  fetch_content E u = Some soup →
  soup_postingbody soup = None →
  process_row E r false true
    = ([EvFetchContent u], Ok (Some (<["deleted" := VBool true]> result))).
Proof.
  rewrite process_row_plain. unfold process_row.
  destruct (row_spacer r); [done|].
  destruct (row_attrs r !! "data-pid") as [id|]; [|done].
  destruct (row_link r) as [link|]; [|done].
  destruct (link !! "href") as [href|]; [|done].
  destruct (row_meta r) as [meta_text|]; [|done].
  intros [= <-]. rewrite summary_url. intros [= <-] Hfetch Hbody. simpl.
  rewrite Hfetch. unfold mbind, M_bind, bind, mret, M_ret, ret, include_details.
  by rewrite Hbody.
Qed.

Lemma process_row_deleted_posting_witness :
  process_row (Examples.env (λ _, None) (λ _, Some Examples.deleted_page) Examples.no_reveal)
              (Examples.listing_row "1") false true
    = ([EvFetchContent "https://newyork.craigslist.org/bik/1.html"],
       Ok (Some (<["deleted" := VBool true]> (Examples.listing_record "1")))).
Proof.
  apply (process_row_deleted_posting
           (Examples.env (λ _, None) (λ _, Some Examples.deleted_page) Examples.no_reveal)
           (Examples.listing_row "1") (Examples.listing_record "1")
           "https://newyork.craigslist.org/bik/1.html" Examples.deleted_page); reflexivity.
Defined.

(** ** Further properties of the pagination engine *)

Section MorePaginationProofs.
Context {F : Type} (E : Env F).

Lemma requests_app (evs evs' : list (event F)) :
  requests (evs ++ evs') = requests evs ++ requests evs'.
Proof. apply omap_app. Qed.

Lemma process_row_requests_nothing r geotagged include_details_ :
  requests (process_row E r geotagged include_details_).1 = [].
Proof.
  unfold process_row.
  repeat match goal with
         | |- context [match ?x with _ => _ end] => destruct x; try done
         end.
Qed.

(** The row loop sends no search-page request. *)
Lemma rows_loop_requests_nothing limit geotagged include_details_ rows :
  ∀ results_yielded total_so_far,
  requests (rows_events
    (rows_loop E limit geotagged include_details_ rows results_yielded total_so_far)) = [].
Proof.
  induction rows as [|r rest IH]; intros ry tsf; simpl; [done|].
  destruct (limit <=? ry); [done|].
  pose proof (process_row_requests_nothing r geotagged include_details_) as Hnr.
  destruct (process_row E r geotagged include_details_) as [evs [item|e]]; simpl in Hnr.
  - specialize (IH (ry + 1) (tsf + 1)).
    destruct (rows_loop E limit geotagged include_details_ rest _ _)
      as [[[evs' err] ry'] tsf'].
    unfold rows_events in *. simpl in *. by rewrite requests_app, Hnr.
  - done.
Qed.

(** A page yields nothing, or stays within its declared count. *)
Lemma rows_loop_within limit geotagged include_details_ rows results_yielded total_so_far :
  let out := rows_loop E limit geotagged include_details_ rows results_yielded total_so_far in
  let n := Z.of_nat (length (yielded (rows_events out))) in
  rows_results_yielded out = results_yielded + n ∧
  rows_total_so_far out = total_so_far + n ∧
  (n = 0 ∨ results_yielded + n ≤ limit).
Proof.
  pose proof (rows_loop_counters E limit geotagged include_details_ rows
                results_yielded total_so_far) as (Hry & Htsf & Hle).
  cbv zeta in *. split; [done|]. split; [done|].
  destruct (Z.le_gt_cases limit results_yielded) as [Hstarved|Hbelow].
  - left. by rewrite rows_loop_starved.
  - right. rewrite <- Hry. apply Hle. lia.
Qed.

(** One turn of the page loop: the request of the page at [start], the
    events of its rows, and then either the end of the run or the next
    turn, which starts where the items of this page end. *)
Lemma pages_loop_shape fuel filters geotagged include_details_ start total_so_far
    results_yielded total :
  ∃ evs,
    let n := Z.of_nat (length (yielded evs)) in
    let filters' := <["s" := PScalar (SInt start)]> filters in
    let run := pages_loop E (S fuel) filters geotagged include_details_
                          start total_so_far results_yielded total in
    requests evs = [] ∧
    (n = 0 ∨ ∃ soup rows text limit,
        requests_get E filters' = Some soup ∧ page_ol soup = Some rows ∧
        ol_result_count rows = Some text ∧
        PyStr.int (PyStr.split_first " " text) = Some limit ∧
        results_yielded + n ≤ limit) ∧
    ((∃ fin, run = (EvGet filters' :: evs, fin) ∧ fin ≠ OutOfFuel) ∨
     (∃ total',
        RESULTS_PER_REQUEST ≤ total_so_far + n - start ∧
        run = (EvGet filters' :: evs ++
                 (pages_loop E fuel filters' geotagged include_details_
                             (total_so_far + n) (total_so_far + n)
                             (results_yielded + n) total').1,
               (pages_loop E fuel filters' geotagged include_details_
                           (total_so_far + n) (total_so_far + n)
                           (results_yielded + n) total').2))).
Proof.
  simpl.
  destruct (requests_get E _) as [soup|] eqn:Hget;
    [|exists []; split; [done|]; split; [by left|]; left; by eexists].
  destruct (if not_total total then get_results_approx_count soup else Ok total)
    as [total'|e]; [|exists []; split; [done|]; split; [by left|]; left; by eexists].
  destruct (page_ol soup) as [rows|] eqn:Hol;
    [|exists []; split; [done|]; split; [by left|]; left; by eexists].
  destruct (ol_result_count rows) as [text|] eqn:Htext;
    [|exists []; split; [done|]; split; [by left|]; left; by eexists].
  destruct (PyStr.int _) as [limit|] eqn:Hint;
    [|exists []; split; [done|]; split; [by left|]; left; by eexists].
  pose proof (rows_loop_within limit geotagged include_details_ (ol_rows rows)
                results_yielded total_so_far) as (Hry & Htsf & Hn).
  pose proof (rows_loop_requests_nothing limit geotagged include_details_ (ol_rows rows)
                results_yielded total_so_far) as Hreq.
  destruct (rows_loop E limit geotagged include_details_ (ol_rows rows) _ _)
    as [[[evs err] ry'] tsf'].
  unfold rows_events, rows_results_yielded, rows_total_so_far in *. simpl in *.
  exists evs. split; [done|]. split.
  { destruct Hn as [Hn|Hn]; [by left|]. right. by exists soup, rows, text, limit. }
  destruct err as [e|]; [left; by eexists|].
  destruct (tsf' - start <? RESULTS_PER_REQUEST) eqn:Hshort; [left; by eexists|].
  apply Z.ltb_ge in Hshort. right. exists total'. subst ry' tsf'. split; [done|].
  by destruct (pages_loop E fuel _ geotagged include_details_ _ _ _ _).
Qed.

(** A request inside a trace splits the trace of the rows before it. *)
Lemma request_after_rows (evs tail pre post : list (event F)) f :
  requests evs = [] →
  evs ++ tail = pre ++ EvGet f :: post →
  ∃ pre', pre = evs ++ pre' ∧ tail = pre' ++ EvGet f :: post.
Proof.
  revert pre. induction evs as [|ev evs IH]; intros pre Hreq Heq.
  - by exists pre.
  - destruct pre as [|ev' pre].
    + simpl in Heq. injection Heq as -> _. done.
    + simpl in Heq. injection Heq as <- Heq.
      destruct (IH pre) as (pre' & -> & ->); [|done|by exists pre'].
      destruct ev; try done.
Qed.

Lemma pages_loop_offsets fuel geotagged include_details_ :
  ∀ filters start results_yielded total pre f post,
  (pages_loop E fuel filters geotagged include_details_
              start start results_yielded total).1 = pre ++ EvGet f :: post →
  f !! "s" = Some (PScalar (SInt (start + Z.of_nat (length (yielded pre))))).
Proof.
  induction fuel as [|fuel IH]; intros filters start ry total pre f post.
  - simpl. by destruct pre.
  - destruct (pages_loop_shape fuel filters geotagged include_details_ start start ry total)
      as (evs & Hreq & _ & [(fin & -> & _)|(total' & _ & ->)]); simpl.
    + destruct pre as [|ev pre]; simpl.
      * intros [= <- _]. rewrite lookup_insert_eq. do 3 f_equal. lia.
      * intros [= _ Heq]. exfalso.
        assert (Hr : requests evs = requests (pre ++ EvGet f :: post)) by by rewrite Heq.
        rewrite Hreq, requests_app in Hr. simpl in Hr. by destruct (requests pre).
    + destruct pre as [|ev pre]; simpl.
      * intros [= <- _]. rewrite lookup_insert_eq. do 3 f_equal. lia.
      * intros [= <- Heq].
        destruct (request_after_rows _ _ _ _ _ Hreq Heq) as (pre' & -> & Htail).
        rewrite (IH _ _ _ _ _ _ _ Htail).
        simpl. rewrite yielded_app, length_app. do 3 f_equal. lia.
Qed.

Lemma pages_loop_requests_carry fuel geotagged include_details_ :
  ∀ filters start total_so_far results_yielded total f k,
  f ∈ requests (pages_loop E fuel filters geotagged include_details_
                           start total_so_far results_yielded total).1 →
  k ≠ "s" → f !! k = filters !! k.
Proof.
  induction fuel as [|fuel IH]; intros filters start tsf ry total f k.
  - simpl. intros H. by apply elem_of_nil in H.
  - destruct (pages_loop_shape fuel filters geotagged include_details_ start tsf ry total)
      as (evs & Hreq & _ & [(fin & -> & _)|(total' & _ & ->)]); simpl.
    + rewrite Hreq. intros ->%list_elem_of_singleton Hk. by rewrite lookup_insert_ne.
    + rewrite requests_app, Hreq. simpl.
      intros [->|Hin]%elem_of_cons Hk; [by rewrite lookup_insert_ne|].
      rewrite (IH _ _ _ _ _ _ _ Hin Hk). by rewrite lookup_insert_ne.
Qed.

Lemma pages_loop_yield_bound bound fuel geotagged include_details_ :
  declared_at_most E bound →
  ∀ filters start total_so_far results_yielded total,
  results_yielded ≤ bound →
  results_yielded + Z.of_nat (length (yielded
    (pages_loop E fuel filters geotagged include_details_
                start total_so_far results_yielded total).1)) ≤ bound.
Proof.
  intros Hbound. induction fuel as [|fuel IH]; intros filters start tsf ry total Hry.
  - simpl. lia.
  - destruct (pages_loop_shape fuel filters geotagged include_details_ start tsf ry total)
      as (evs & _ & Hn & Hrun).
    assert (Hhere : ry + Z.of_nat (length (yielded evs)) ≤ bound).
    { destruct Hn as [->|(soup & rows & text & limit & H1 & H2 & H3 & H4 & Hle)]; [lia|].
      pose proof (Hbound _ _ _ _ _ H1 H2 H3 H4). lia. }
    destruct Hrun as [(fin & -> & _)|(total' & _ & ->)]; simpl; [done|].
    rewrite yielded_app, length_app.
    specialize (IH (<["s" := PScalar (SInt start)]> filters)
                   (tsf + Z.of_nat (length (yielded evs)))
                   (tsf + Z.of_nat (length (yielded evs)))
                   (ry + Z.of_nat (length (yielded evs))) total' Hhere).
    lia.
Qed.

Lemma pages_loop_terminates bound geotagged include_details_ :
  declared_at_most E bound →
  ∀ fuel filters start results_yielded total,
  results_yielded ≤ bound →
  bound - results_yielded < RESULTS_PER_REQUEST * Z.of_nat fuel →
  (pages_loop E fuel filters geotagged include_details_
              start start results_yielded total).2 ≠ OutOfFuel.
Proof.
  intros Hbound. unfold RESULTS_PER_REQUEST.
  induction fuel as [|fuel IH]; intros filters start ry total Hry Hfuel; [lia|].
  destruct (pages_loop_shape fuel filters geotagged include_details_ start start ry total)
    as (evs & _ & Hn & Hrun).
  assert (Hhere : ry + Z.of_nat (length (yielded evs)) ≤ bound).
  { destruct Hn as [->|(soup & rows & text & limit & H1 & H2 & H3 & H4 & Hle)]; [lia|].
    pose proof (Hbound _ _ _ _ _ H1 H2 H3 H4). lia. }
  destruct Hrun as [(fin & -> & Hfin)|(total' & Hfull & ->)]; simpl; [done|].
  unfold RESULTS_PER_REQUEST in Hfull. apply IH; [done|lia].
Qed.

(** More fuel does not change a run that ended by itself. *)
Lemma pages_loop_more_fuel fuel geotagged include_details_ :
  ∀ filters start total_so_far results_yielded total,
  (pages_loop E fuel filters geotagged include_details_
              start total_so_far results_yielded total).2 ≠ OutOfFuel →
  pages_loop E (S fuel) filters geotagged include_details_
             start total_so_far results_yielded total
    = pages_loop E fuel filters geotagged include_details_
                 start total_so_far results_yielded total.
Proof.
  induction fuel as [|fuel IH]; intros filters start tsf ry total Hfin; [done|].
  revert Hfin.
  change (pages_loop E (S (S fuel)) filters geotagged include_details_ start tsf ry total)
    with (let filters := <["s" := PScalar (SInt start)]> filters in
          match requests_get E filters with
          | None => ([EvGet filters], Exhausted)
          | Some soup =>
              match (if not_total total then get_results_approx_count soup else Ok total) with
              | Raise e => ([EvGet filters], Raised e)
              | Ok total =>
                  match page_ol soup with
                  | None => ([EvGet filters], Raised (AttributeError "find"))
                  | Some rows =>
                      match ol_result_count rows with
                      | None => ([EvGet filters], Raised (AttributeError "text"))
                      | Some text =>
                          match PyStr.int (PyStr.split_first " " text) with
                          | None =>
                              ([EvGet filters], Raised (ValueError (PyStr.split_first " " text)))
                          | Some limit =>
                              let '(evs, err, results_yielded, total_so_far) :=
                                rows_loop E limit geotagged include_details_ (ol_rows rows)
                                          ry tsf in
                              match err with
                              | Some e => (EvGet filters :: evs, Raised e)
                              | None =>
                                  if total_so_far - start <? RESULTS_PER_REQUEST
                                  then (EvGet filters :: evs, Exhausted)
                                  else
                                    let '(evs', fin) :=
                                      pages_loop E (S fuel) filters geotagged include_details_
                                                 total_so_far total_so_far
                                                 results_yielded total in
                                    (EvGet filters :: evs ++ evs', fin)
                              end
                          end
                      end
                  end
              end
          end).
  change (pages_loop E (S fuel) filters geotagged include_details_ start tsf ry total)
    with (let filters := <["s" := PScalar (SInt start)]> filters in
          match requests_get E filters with
          | None => ([EvGet filters], Exhausted)
          | Some soup =>
              match (if not_total total then get_results_approx_count soup else Ok total) with
              | Raise e => ([EvGet filters], Raised e)
              | Ok total =>
                  match page_ol soup with
                  | None => ([EvGet filters], Raised (AttributeError "find"))
                  | Some rows =>
                      match ol_result_count rows with
                      | None => ([EvGet filters], Raised (AttributeError "text"))
                      | Some text =>
                          match PyStr.int (PyStr.split_first " " text) with
                          | None =>
                              ([EvGet filters], Raised (ValueError (PyStr.split_first " " text)))
                          | Some limit =>
                              let '(evs, err, results_yielded, total_so_far) :=
                                rows_loop E limit geotagged include_details_ (ol_rows rows)
                                          ry tsf in
                              match err with
                              | Some e => (EvGet filters :: evs, Raised e)
                              | None =>
                                  if total_so_far - start <? RESULTS_PER_REQUEST
                                  then (EvGet filters :: evs, Exhausted)
                                  else
                                    let '(evs', fin) :=
                                      pages_loop E fuel filters geotagged include_details_
                                                 total_so_far total_so_far
                                                 results_yielded total in
                                    (EvGet filters :: evs ++ evs', fin)
                              end
                          end
                      end
                  end
              end
          end).
  cbv zeta.
  destruct (requests_get E _) as [soup|]; [|done].
  destruct (if not_total total then get_results_approx_count soup else Ok total)
    as [total'|e]; [|done].
  destruct (page_ol soup) as [rows|]; [|done].
  destruct (ol_result_count rows) as [text|]; [|done].
  destruct (PyStr.int _) as [limit|]; [|done].
  destruct (rows_loop E limit geotagged include_details_ (ol_rows rows) _ _)
    as [[[evs err] ry'] tsf'].
  destruct err as [e|]; [done|].
  destruct (tsf' - start <? RESULTS_PER_REQUEST); [done|].
  intros Hfin. rewrite IH; [done|].
  by destruct (pages_loop E fuel _ geotagged include_details_ tsf' tsf' ry' total').
Qed.

Lemma pages_loop_fuel_irrelevant fuel extra geotagged include_details_
    filters start total_so_far results_yielded total :
  (pages_loop E fuel filters geotagged include_details_
              start total_so_far results_yielded total).2 ≠ OutOfFuel →
  pages_loop E (extra + fuel) filters geotagged include_details_
             start total_so_far results_yielded total
    = pages_loop E fuel filters geotagged include_details_
                 start total_so_far results_yielded total.
Proof.
  intros Hfin. induction extra as [|extra IH]; [done|].
  change (S extra + fuel)%nat with (S (extra + fuel)).
  rewrite pages_loop_more_fuel; rewrite IH; done.
Qed.

(** [get_results] is the page loop from [start], or the rejection of
    the sort key. *)
Lemma get_results_cases fuel filters limit start sort_by geotagged include_details_ :
  (∃ filters',
     get_results E fuel filters limit start sort_by geotagged include_details_
       = pages_loop E fuel filters' geotagged include_details_ start start 0 (Some 0) ∧
     (∀ k, k ≠ "sort" → filters' !! k = filters !! k) ∧
     (∀ key v, sort_by = Some key → dict_get key sort_by_options = Some v →
               filters' !! "sort" = Some (PScalar (SStr v)))) ∨
  (∃ msg, ∀ fuel',
     get_results E fuel' filters limit start sort_by geotagged include_details_
       = ([EvLogError msg], Raised (ValueError msg))).
Proof.
  unfold get_results. destruct sort_by as [[|c key]|].
  - left. exists filters. split; [done|]. split; [done|]. by intros key v [= <-].
  - destruct (dict_get _ sort_by_options) as [v|] eqn:Hv.
    + left. eexists. split; [done|]. split.
      * intros k Hk. by rewrite lookup_insert_ne.
      * intros key' v' [= <-]. rewrite Hv. intros [= <-]. apply lookup_insert_eq.
    + right. by eexists.
  - left. exists filters. split; [done|]. split; [done|]. by intros key v.
Qed.

End MorePaginationProofs.

(** The run over two full pages, event by event. *)
Lemma two_page_trace :
  get_results (Examples.env Examples.two_page_site (λ _, None) Examples.no_reveal)
              5 ∅ None 0 None false false
    = (EvGet {["s" := PScalar (SInt 0)]}
         :: replicate 100 (EvYield (Some (Examples.listing_record "1")))
         ++ [EvGet {["s" := PScalar (SInt 100)]}],
       Exhausted).
Proof.
  unfold get_results.
  rewrite (pages_loop_page _ 4 ∅ false false 0 0 0 (Some 0)
             (Examples.search_page "100" (replicate 100 (Examples.listing_row "1")))
             (Some 250) (Examples.result_list "100" (replicate 100 (Examples.listing_row "1")))
             "100 results" 100
             (replicate 100 (EvYield (Some (Examples.listing_record "1")))) 100 100);
    [|reflexivity|reflexivity|reflexivity|reflexivity|reflexivity|].
  - rewrite (pages_loop_page _ 3 _ false false 100 100 100 (Some 250)
               (Examples.search_page "100" (replicate 100 (Examples.listing_row "2")))
               (Some 250) (Examples.result_list "100" (replicate 100 (Examples.listing_row "2")))
               "100 results" 100 [] 100 100);
      [reflexivity|reflexivity|reflexivity|reflexivity|reflexivity|reflexivity|].
    by apply rows_loop_starved.
  - by apply (rows_loop_replicate _ 100 false false (Examples.listing_row "1")
                (Some (Examples.listing_record "1")) 100).
Qed.

(** The site of three rows declares three results on its only page. *)
Lemma three_row_site_declares :
  declared_at_most
    (Examples.env MoreExamples.three_row_site (λ _, None) Examples.no_reveal) 3.
Proof.
  intros params soup rows text limit. simpl. unfold MoreExamples.three_row_site.
  destruct (params !! "s") as [[[| |[| |]|]|]|]; try discriminate.
  intros [= <-] [= <-] [= <-]. vm_compute. intros [= <-]. discriminate.
Qed.

(** X8.  Every search-page request of a run carries as its offset ["s"]
    the caller's [start] plus the number of items yielded before that
    request, spacer nulls included. *)
Theorem get_results_request_offsets {F : Type} (E : Env F) (fuel : nat)
    (filters : gmap string pvalue) (limit : option Z) (start : Z) (sort_by : option string)
    (geotagged include_details_ : bool) (pre post : list (event F))
    (params : gmap string pvalue) :
  (get_results E fuel filters limit start sort_by geotagged include_details_).1
    = pre ++ EvGet params :: post →
  params !! "s" = Some (PScalar (SInt (start + Z.of_nat (length (yielded pre))))).
Proof.
  destruct (get_results_cases E fuel filters limit start sort_by geotagged include_details_)
    as [(filters' & -> & _)|(msg & ->)].
  - apply pages_loop_offsets.
  - simpl. destruct pre as [|ev [|ev' pre]]; discriminate.
Qed.

Lemma get_results_request_offsets_witness :
  ({["s" := PScalar (SInt 100)]} : gmap string pvalue) !! "s" = Some (PScalar (SInt 100)).
Proof.
  refine (get_results_request_offsets
            (Examples.env Examples.two_page_site (λ _, None) Examples.no_reveal)
            5 ∅ None 0 None false false
            (EvGet {["s" := PScalar (SInt 0)]}
               :: replicate 100 (EvYield (Some (Examples.listing_record "1")))) []
            {["s" := PScalar (SInt 100)]} _).
  rewrite two_page_trace. reflexivity.
Defined.

(** X9.  Every search-page request of a run carries the instance's
    parameters unchanged apart from the offset ["s"] and the sort order,
    and, when a valid sort key was given, its provider value under
    ["sort"]. *)
Theorem get_results_requests_carry_filters {F : Type} (E : Env F) (fuel : nat)
    (filters : gmap string pvalue) (limit : option Z) (start : Z) (sort_by : option string)
    (geotagged include_details_ : bool) (params : gmap string pvalue) :
  params ∈ requests (get_results E fuel filters limit start sort_by
                       geotagged include_details_).1 →
  (∀ k, k ≠ "s" → k ≠ "sort" → params !! k = filters !! k) ∧
  (∀ key v, sort_by = Some key → dict_get key sort_by_options = Some v →
            params !! "sort" = Some (PScalar (SStr v))).
Proof.
  destruct (get_results_cases E fuel filters limit start sort_by geotagged include_details_)
    as [(filters' & -> & Hsame & Hsort)|(msg & ->)].
  - intros Hin. split.
    + intros k Hs Hk. rewrite (pages_loop_requests_carry E _ _ _ _ _ _ _ _ _ k Hin Hs).
      by apply Hsame.
    + intros key v Hkey Hv.
      rewrite (pages_loop_requests_carry E _ _ _ _ _ _ _ _ _ "sort" Hin) by done.
      by apply (Hsort key v).
  - simpl. intros H. by apply elem_of_nil in H.
Qed.

Lemma get_results_requests_carry_filters_witness :
  (<["s" := PScalar (SInt 0)]> (<["sort" := PScalar (SStr "date")]>
     ({["query" := PScalar (SStr "apple")]} : gmap string pvalue))) !! "query"
    = Some (PScalar (SStr "apple")).
Proof.
  destruct (get_results_requests_carry_filters Examples.offline 1
              {["query" := PScalar (SStr "apple")]} None 0 (Some "newest") false false
              (<["s" := PScalar (SInt 0)]> (<["sort" := PScalar (SStr "date")]>
                 {["query" := PScalar (SStr "apple")]}))) as [Hsame _].
  - simpl. left.
  - rewrite Hsame by discriminate. reflexivity.
Defined.

(** X10.  When no served page declares more than [bound] results, a whole
    run yields at most [bound] items, however many pages the site has:
    the count compared with each page's declared number is the running
    total of the run. *)
Theorem get_results_yield_bound {F : Type} (E : Env F) (bound : Z) (fuel : nat)
    (filters : gmap string pvalue) (limit : option Z) (start : Z) (sort_by : option string)
    (geotagged include_details_ : bool) :
  declared_at_most E bound → 0 ≤ bound →
  Z.of_nat (length (yielded (get_results E fuel filters limit start sort_by
                               geotagged include_details_).1)) ≤ bound.
Proof.
  intros Hbound Hpos.
  destruct (get_results_cases E fuel filters limit start sort_by geotagged include_details_)
    as [(filters' & -> & _)|(msg & ->)]; [|simpl; lia].
  pose proof (pages_loop_yield_bound E bound fuel geotagged include_details_ Hbound
                filters' start start 0 (Some 0) Hpos).
  lia.
Qed.

(** X11.  When no served page declares more than [bound] results, a run
    ends by itself within [bound / 100 + 1] pages: with that much fuel it
    never runs out. *)
Theorem get_results_terminates {F : Type} (E : Env F) (bound : Z) (fuel : nat)
    (filters : gmap string pvalue) (limit : option Z) (start : Z) (sort_by : option string)
    (geotagged include_details_ : bool) :
  declared_at_most E bound → 0 ≤ bound →
  bound < RESULTS_PER_REQUEST * Z.of_nat fuel →
  (get_results E fuel filters limit start sort_by geotagged include_details_).2 ≠ OutOfFuel.
Proof.
  intros Hbound Hpos Hfuel.
  destruct (get_results_cases E fuel filters limit start sort_by geotagged include_details_)
    as [(filters' & -> & _)|(msg & ->)]; [|done].
  apply (pages_loop_terminates E bound geotagged include_details_ Hbound); [done|lia].
Qed.

(** A run that ended by itself is the same with any larger amount of
    fuel. *)
Theorem get_results_fuel_irrelevant {F : Type} (E : Env F) (fuel extra : nat)
    (filters : gmap string pvalue) (limit : option Z) (start : Z) (sort_by : option string)
    (geotagged include_details_ : bool) :
  (get_results E fuel filters limit start sort_by geotagged include_details_).2 ≠ OutOfFuel →
  get_results E (extra + fuel) filters limit start sort_by geotagged include_details_
    = get_results E fuel filters limit start sort_by geotagged include_details_.
Proof.
  unfold get_results. destruct sort_by as [[|c key]|].
  - apply pages_loop_fuel_irrelevant.
  - destruct (dict_get _ sort_by_options) as [v|]; [apply pages_loop_fuel_irrelevant|done].
  - apply pages_loop_fuel_irrelevant.
Qed.

Lemma get_results_yield_bound_witness :
  Z.of_nat (length (yielded
    (get_results (Examples.env MoreExamples.three_row_site (λ _, None) Examples.no_reveal)
                 1 ∅ None 0 None false false).1)) ≤ 3.
Proof.
  apply get_results_yield_bound; [apply three_row_site_declares|lia].
Defined.

Lemma get_results_terminates_witness :
  (get_results (Examples.env MoreExamples.three_row_site (λ _, None) Examples.no_reveal)
               1 ∅ None 0 None false false).2 ≠ OutOfFuel.
Proof.
  apply (get_results_terminates _ 3); [apply three_row_site_declares|lia|].
  unfold RESULTS_PER_REQUEST. lia.
Defined.

Lemma get_results_fuel_irrelevant_witness :
  get_results (Examples.env MoreExamples.three_row_site (λ _, None) Examples.no_reveal)
              (4 + 1) ∅ None 0 None false false
    = get_results (Examples.env MoreExamples.three_row_site (λ _, None) Examples.no_reveal)
                  1 ∅ None 0 None false false.
Proof.
  apply get_results_fuel_irrelevant. discriminate.
Defined.

(** ** Further properties of the string primitives *)

Lemma rstrip_keeps_head c s :
  PyStr.isspace c = false → PyStr.rstrip (String c s) = String c (PyStr.rstrip s).
Proof. intros Hc. simpl. rewrite Hc. by destruct (PyStr.rstrip s). Qed.

Lemma rstrip_idempotent s : PyStr.rstrip (PyStr.rstrip s) = PyStr.rstrip s.
Proof.
  induction s as [|c s IH]; [done|]. simpl.
  destruct (PyStr.rstrip s) as [|c' r] eqn:Hr.
  - destruct (PyStr.isspace c) eqn:Hc; [done|]. simpl. by rewrite Hc.
  - simpl in *. rewrite IH. done.
Qed.

Lemma lstrip_head s :
  PyStr.lstrip s = EmptyString ∨
  ∃ c s', PyStr.lstrip s = String c s' ∧ PyStr.isspace c = false.
Proof.
  induction s as [|c s IH]; [by left|]. simpl.
  destruct (PyStr.isspace c) eqn:Hc; [done|]. right. by exists c, s.
Qed.

(** What [strip] returns is already stripped. *)
Lemma strip_idempotent s : PyStr.strip (PyStr.strip s) = PyStr.strip s.
Proof.
  unfold PyStr.strip.
  destruct (lstrip_head s) as [->|(c & s' & -> & Hc)]; [done|].
  rewrite (rstrip_keeps_head c s' Hc). simpl PyStr.lstrip. rewrite Hc.
  rewrite <- (rstrip_keeps_head c s' Hc). apply rstrip_idempotent.
Qed.


Lemma lower_ascii_not_upper c :
  (let n := nat_of_ascii (PyStr.lower_ascii c) in (65 <=? n)%nat && (n <=? 90)%nat) = false.
Proof. by destruct c as [[] [] [] [] [] [] [] []]. Qed.

Lemma has_upper_lower s : has_upper (PyStr.lower s) = false.
Proof.
  induction s as [|c s IH]; [done|].
  change (has_upper (PyStr.lower (String c s)))
    with ((let n := nat_of_ascii (PyStr.lower_ascii c) in (65 <=? n)%nat && (n <=? 90)%nat)
          || has_upper (PyStr.lower s)).
  by rewrite lower_ascii_not_upper, IH.
Qed.

(** A marker with a capital letter is never among lowered attributes. *)
Lemma str_in_lowered marker raw :
  has_upper marker = true → str_in marker (PyStr.lower <$> raw) = false.
Proof.
  intros Hup. unfold str_in. induction raw as [|a raw IH]; [done|].
  rewrite fmap_cons. cbn [existsb]. rewrite IH, orb_false_r.
  destruct (String.eqb_spec marker (PyStr.lower a)) as [->|]; [|done].
  by rewrite has_upper_lower in Hup.
Qed.

(** ** Further properties of the enrichment *)

Section MoreEnrichmentProofs.
Context {F : Type} (E : Env F).

Lemma for_each_app {A : Type} (body : A → M F unit) l1 l2 st st1 :
  for_each body l1 st = (Ok tt, st1) →
  for_each body (l1 ++ l2) st = for_each body l2 st1.
Proof.
  revert st. induction l1 as [|x l1 IH]; intros st.
  - by intros [= <-].
  - simpl. unfold mbind, M_bind, bind.
    destruct (body x st) as [[[]|e] st0]; [|done]. apply IH.
Qed.

Lemma for_each_noop {A : Type} (body : A → M F unit) l :
  (∀ x st, x ∈ l → body x st = (Ok tt, st)) →
  ∀ st, for_each body l st = (Ok tt, st).
Proof.
  induction l as [|x l IH]; intros Hbody st; [done|].
  rewrite for_each_cons, (bind_ok _ _ _ _ _ (Hbody x st (list_elem_of_here _ _))).
  apply IH. intros y st0 Hy. apply Hbody. by right.
Qed.

(** The last turn that stores under a key decides its value. *)
Lemma for_each_last_write {A : Type} (body : A → M F unit) (keyof : A → string)
    pre x post v :
  (∀ y st, y ∈ pre ++ x :: post →
     body y st = (Ok tt, st) ∨ ∃ w, body y st = (Ok tt, <[keyof y := w]> st)) →
  (∀ st, body x st = (Ok tt, <[keyof x := v]> st)) →
  keyof x ∉ keyof <$> post →
  ∀ st, ∃ st', for_each body (pre ++ x :: post) st = (Ok tt, st') ∧
               st' !! keyof x = Some v.
Proof.
  intros Hbody Hx Hpost st.
  destruct (for_each_writes body keyof pre) with (st := st) as (st1 & Hrun1 & _).
  { intros y st0 Hy. apply Hbody, elem_of_app. by left. }
  destruct (for_each_writes body keyof post) with (st := <[keyof x := v]> st1)
    as (st2 & Hrun2 & Hframe2).
  { intros y st0 Hy. apply Hbody, elem_of_app. right. by right. }
  exists st2. split.
  - rewrite (for_each_app body pre (x :: post) st st1 Hrun1).
    rewrite for_each_cons. by rewrite (bind_ok _ _ _ _ _ (Hx st1)).
  - rewrite Hframe2 by done. apply lookup_insert_eq.
Qed.

Lemma geotag_result_frame soup st k :
  k ≠ "geotag" → (geotag_result E soup st).2 !! k = st !! k.
Proof.
  intros Hk. destruct (soup_map soup) as [map_|] eqn:Hmap.
  - rewrite (geotag_result_eval E soup map_ st Hmap).
    destruct (map_ !! "data-latitude") as [lat_text|]; [|done].
    destruct (float E lat_text) as [lat|]; [|done].
    destruct (map_ !! "data-longitude") as [lon_text|]; [|done].
    destruct (float E lon_text) as [lon|]; [|done].
    simpl. by rewrite lookup_insert_ne.
  - by rewrite (geotag_result_no_map E soup st Hmap).
Qed.

Lemma geotag_result_dom soup st :
  is_Some (st !! "geotag") → dom (geotag_result E soup st).2 = dom st.
Proof.
  intros Hg. destruct (soup_map soup) as [map_|] eqn:Hmap.
  - rewrite (geotag_result_eval E soup map_ st Hmap).
    destruct (map_ !! "data-latitude") as [lat_text|]; [|done].
    destruct (float E lat_text) as [lat|]; [|done].
    destruct (map_ !! "data-longitude") as [lon_text|]; [|done].
    destruct (float E lon_text) as [lon|]; [|done].
    simpl. by apply dom_insert_lookup_L.
  - by rewrite (geotag_result_no_map E soup st Hmap).
Qed.

Lemma collect_attrs_trimmed attrgroups :
  Forall (λ a, a ≠ EmptyString ∧ PyStr.strip a = a) (collect_attrs attrgroups).
Proof.
  unfold collect_attrs. apply Forall_forall. intros a Ha.
  apply list_elem_of_filter in Ha as [Hne Hin].
  apply list_elem_of_fmap in Hin as (t & -> & _).
  split; [intros Heq; by rewrite Heq in Hne|apply strip_idempotent].
Qed.


End MoreEnrichmentProofs.

(** X12.  When every list filter carries an option dict, [parse_attrs]
    returns normally and stores only under keys of the two filter tables:
    every other entry of the record is left as it was. *)
Theorem parse_attrs_only_table_keys {F : Type} (E : Env F)
    (st : gmap string (rvalue F)) (raw : list string) :
  tables_ok E = true →
  st !! "attrs" = Some (VStrs raw) →
  ∃ st', parse_attrs E st = (Ok tt, st') ∧
         ∀ k, k ∉ table_keys E → st' !! k = st !! k.
Proof. apply parse_attrs_run. Qed.

Lemma parse_attrs_only_table_keys_witness :
  ∃ st', parse_attrs Examples.offline
           (<["attrs" := VStrs ["condition: used"; "cryptocurrency ok"]]> Examples.a_summary)
           = (Ok tt, st') ∧
         st' !! "price" = Some (VStr "$120").
Proof.
  destruct (parse_attrs_only_table_keys Examples.offline
              (<["attrs" := VStrs ["condition: used"; "cryptocurrency ok"]]> Examples.a_summary)
              ["condition: used"; "cryptocurrency ok"])
    as (st' & Hrun & Hframe); [reflexivity|reflexivity|].
  exists st'. split; [exact Hrun|].
  rewrite Hframe; [reflexivity|].
  unfold table_keys. simpl. intros H.
  repeat (apply elem_of_cons in H as [H|H]; [discriminate|]).
  by apply elem_of_nil in H.
Defined.

(** X13.  The attributes are lowered before the comparison but the
    markers of the binary filters are not: when every binary filter's
    marker holds a capital letter, [parse_attrs] sets no flag at all, and
    only keys of the list filters can change. *)
Theorem parse_attrs_capital_marker {F : Type} (E : Env F)
    (st : gmap string (rvalue F)) (raw : list string) :
  tables_ok E = true →
  st !! "attrs" = Some (VStrs raw) →
  (∀ key options, (key, options) ∈ extra_filters E → is_binary (value options) = true →
     ∃ marker, attr options = Some marker ∧ has_upper marker = true) →
  ∃ st', parse_attrs E st = (Ok tt, st') ∧
         ∀ k, k ∉ dict_keys (list_filters E) → st' !! k = st !! k.
Proof.
  intros Htables Hattrs Hmarkers. unfold parse_attrs.
  unfold mbind at 1. unfold M_bind, bind, getitem. rewrite Hattrs.
  match goal with
  | |- context [for_each ?b (extra_filters E)] =>
      assert (Hrun1 : for_each b (extra_filters E) st = (Ok tt, st))
  end.
  { apply for_each_noop. intros [key options] st0 Hin.
    destruct (is_binary (value options)) eqn:Hbin; [|done].
    destruct (Hmarkers key options Hin Hbin) as (marker & -> & Hup). simpl.
    by rewrite str_in_lowered. }
  match goal with
  | |- context [for_each ?b (list_filters E)] =>
      destruct (for_each_writes b fst (list_filters E)) with (st := st)
        as (st2 & Hrun2 & Hframe2)
  end.
  { intros [key options] st0 Hin.
    unfold tables_ok in Htables. rewrite forallb_forall in Htables.
    apply list_elem_of_In in Hin. specialize (Htables _ Hin). simpl in Htables.
    destruct (value options) as [|valid_options|lit]; try done.
    destruct (first_option _ _); [right; by eexists|by left]. }
  exists st2. split; [by rewrite (bind_ok _ _ _ _ _ Hrun1)|done].
Qed.

(** X14.  For a list filter, [parse_attrs] stores the first option of the
    filter's table, in table order, that occurs among the attributes once
    a leading label up to ": " is cut off. *)
Theorem parse_attrs_first_option {F : Type} (E : Env F)
    (st : gmap string (rvalue F)) (raw : list string)
    (pre post : list (string * filter_spec)) (key : string) (options : filter_spec)
    (valid_options : list (string * scalar)) (chosen : string) :
  tables_ok E = true →
  st !! "attrs" = Some (VStrs raw) →
  list_filters E = pre ++ (key, options) :: post →
  key ∉ dict_keys post →
  value options = SpDict valid_options →
  first_option (dict_keys valid_options) (PyStr.split1_last ": " <$> raw) = Some chosen →
  ∃ st', parse_attrs E st = (Ok tt, st') ∧ st' !! key = Some (VStr chosen).
Proof.
  intros Htables Hattrs Hlist Hkey Hv Hfirst. unfold parse_attrs.
  unfold mbind at 1. unfold M_bind, bind, getitem. rewrite Hattrs.
  match goal with
  | |- context [for_each ?b (extra_filters E)] =>
      destruct (for_each_writes b fst (extra_filters E)) with (st := st)
        as (st1 & Hrun1 & _)
  end.
  { intros [key0 options0] st0 _.
    destruct (is_binary (value options0)); [|by left].
    destruct (str_in _ _); [right; by eexists|by left]. }
  rewrite (bind_ok _ _ _ _ _ Hrun1).
  unfold tables_ok in Htables. rewrite Hlist in Htables. rewrite Hlist.
  match goal with
  | |- context [for_each ?b (pre ++ _ :: post)] =>
      destruct (for_each_last_write b fst pre (key, options) post (VStr chosen))
        with (st := st1) as (st2 & Hrun2 & Hval)
  end.
  - intros [key0 options0] st0 Hin.
    rewrite forallb_forall in Htables.
    apply list_elem_of_In in Hin. specialize (Htables _ Hin). simpl in Htables.
    destruct (value options0) as [|valid0|lit]; try done.
    destruct (first_option (dict_keys valid0) _); [right; by eexists|by left].
  - intros st0. simpl. by rewrite Hv, Hfirst.
  - done.
  - by exists st2.
Qed.

Lemma parse_attrs_first_option_witness :
  ∃ st', parse_attrs Examples.offline
           (<["attrs" := VStrs ["condition: used"; "new"]]> Examples.a_summary)
           = (Ok tt, st') ∧
         st' !! "condition" = Some (VStr "new").
Proof.
  apply (parse_attrs_first_option Examples.offline
           (<["attrs" := VStrs ["condition: used"; "new"]]> Examples.a_summary)
           ["condition: used"; "new"] [] [] "condition"
           {| url_key := "condition";
              value := SpDict [("new", SStr "10"); ("used", SStr "40")];
              attr := None |}
           [("new", SStr "10"); ("used", SStr "40")] "new").
  - reflexivity.
  - reflexivity.
  - reflexivity.
  - simpl. intros H. by apply elem_of_nil in H.
  - reflexivity.
  - reflexivity.
Defined.



(** X16.  On a live page the two contact fields are stored independently:
    the phone number whenever the session reveals it, whether or not the
    address was revealed, and the address as the mailto link without its
    scheme and query; a field that is not revealed is left as it was. *)
Theorem include_details_contact {F : Type} (E : Env F) (soup : detail_soup)
    (result : gmap string (rvalue F)) (body : list body_child) (ps : list info_p)
    (u : string) :
  soup_postingbody soup = Some body →
  soup_postinginfos soup = Some ps →
  forallb info_ok ps = true →
  result !! "url" = Some (VStr u) →
  reveal_ok (reveal E u) = true →
  tables_ok E = true →
  "email" ∉ table_keys E → "phone" ∉ table_keys E →
  ∃ result', include_details E soup result = (Ok tt, result') ∧
    result' !! "phone" =
      match rv_phone (reveal E u) with
      | Some phone_number => Some (VStr phone_number)
      | None => result !! "phone"
      end ∧
    result' !! "email" =
      match rv_email_href (reveal E u) with
      | Some href =>
          Some (VStr (PyStr.split_first "?" (PyStr.replace "mailto:" EmptyString href)))
      | None => result !! "email"
      end.
Proof.
  intros Hbody Hinfos Hok Hurl Hrv Htables Hemail Hphone.
  destruct (include_details_run E soup result body ps u Hbody Hinfos Hok Hurl Hrv Htables)
    as (result' & Hrun & Hframe).
  exists result'. split; [done|]. split.
  - rewrite Hframe by done. unfold with_details.
    rewrite !lookup_insert_ne by done. rewrite with_created_frame by done.
    unfold with_contact.
    destruct (rv_phone (reveal E u)); [apply lookup_insert_eq|].
    destruct (rv_email_href (reveal E u)); by rewrite !lookup_insert_ne by done.
  - rewrite Hframe by done. unfold with_details.
    rewrite !lookup_insert_ne by done. rewrite with_created_frame by done.
    unfold with_contact.
    destruct (rv_phone (reveal E u)), (rv_email_href (reveal E u));
      rewrite ?lookup_insert_ne by done; rewrite ?lookup_insert_eq; try done;
      by rewrite lookup_insert_ne.
Qed.

Lemma include_details_contact_witness :
  ∃ result',
    include_details Examples.revealing
      (Examples.detail_page "2023-01-01T10:30:00-0500" [Examples.thumb "a"])
      Examples.a_summary = (Ok tt, result') ∧
    result' !! "phone" = Some (VStr "555-0100") ∧
    result' !! "email" = Some (VStr "ab@sale.example.org").
Proof.
  destruct (include_details_contact Examples.revealing
              (Examples.detail_page "2023-01-01T10:30:00-0500" [Examples.thumb "a"])
              Examples.a_summary
              [NavigableString " A good bike. "; Tag true "QR Code Link to This Post"]
              [ {| p_text := "post id: 7001"; p_time := None |};
                Examples.posted_at "2023-01-01T10:30:00-0500" ]
              "https://newyork.craigslist.org/bik/7001.html")
    as (result' & Hrun & Hphone & Hemail);
    [reflexivity|reflexivity|reflexivity|reflexivity|reflexivity|reflexivity| | |].
  - unfold table_keys. simpl. intros H.
    repeat (apply elem_of_cons in H as [H|H]; [discriminate|]).
    by apply elem_of_nil in H.
  - unfold table_keys. simpl. intros H.
    repeat (apply elem_of_cons in H as [H|H]; [discriminate|]).
    by apply elem_of_nil in H.
  - exists result'. split; [exact Hrun|]. split; [exact Hphone|exact Hemail].
Defined.

(** X17.  On a live page the stored attribute strings are trimmed and
    none of them is empty. *)
Theorem include_details_attrs_trimmed {F : Type} (E : Env F) (soup : detail_soup)
    (result : gmap string (rvalue F)) (body : list body_child) (ps : list info_p)
    (u : string) :
  soup_postingbody soup = Some body →
  soup_postinginfos soup = Some ps →
  forallb info_ok ps = true →
  result !! "url" = Some (VStr u) →
  reveal_ok (reveal E u) = true →
  tables_ok E = true →
  "attrs" ∉ table_keys E →
  ∃ result' attrs, include_details E soup result = (Ok tt, result') ∧
    result' !! "attrs" = Some (VStrs attrs) ∧
    Forall (λ a, a ≠ EmptyString ∧ PyStr.strip a = a) attrs.
Proof.
  intros Hbody Hinfos Hok Hurl Hrv Htables Hkey.
  destruct (include_details_run E soup result body ps u Hbody Hinfos Hok Hurl Hrv Htables)
    as (result' & Hrun & Hframe).
  exists result', (collect_attrs (soup_attrgroups soup)). split; [done|]. split.
  - rewrite Hframe by done. unfold with_details. apply lookup_insert_eq.
  - apply collect_attrs_trimmed.
Qed.

Lemma include_details_attrs_trimmed_witness :
  ∃ result' attrs,
    include_details Examples.revealing
      (Examples.detail_page "2023-01-01T10:30:00-0500" [Examples.thumb "a"])
      Examples.a_summary = (Ok tt, result') ∧
    result' !! "attrs" = Some (VStrs attrs) ∧
    Forall (λ a, a ≠ EmptyString ∧ PyStr.strip a = a) attrs.
Proof.
  destruct (include_details_attrs_trimmed Examples.revealing
              (Examples.detail_page "2023-01-01T10:30:00-0500" [Examples.thumb "a"])
              Examples.a_summary
              [NavigableString " A good bike. "; Tag true "QR Code Link to This Post"]
              [ {| p_text := "post id: 7001"; p_time := None |};
                Examples.posted_at "2023-01-01T10:30:00-0500" ]
              "https://newyork.craigslist.org/bik/7001.html")
    as (result' & attrs & Hrun & Hattrs & Hall);
    [reflexivity|reflexivity|reflexivity|reflexivity|reflexivity|reflexivity| |].
  - unfold table_keys. simpl. intros H.
    repeat (apply elem_of_cons in H as [H|H]; [discriminate|]).
    by apply elem_of_nil in H.
  - exists result', attrs. split; [exact Hrun|]. split; [exact Hattrs|exact Hall].
Defined.



(** X19.  Geotagging alone never changes the shape of a record: what
    [process_row] returns with [geotagged] set has the same eleven keys
    as the plain summary of the row and differs from it at most under
    ["geotag"]. *)
Theorem process_row_geotag_only {F : Type} (E : Env F) (r : row)
    (evs : list (event F)) (result result' : gmap string (rvalue F)) :
  process_row E r false false = ([], Ok (Some result)) →
  process_row E r true false = (evs, Ok (Some result')) →
  dom result' = summary_keys ∧ ∀ k, k ≠ "geotag" → result' !! k = result !! k.
Proof.
  rewrite process_row_plain. unfold process_row.
  destruct (row_spacer r); [done|].
  destruct (row_attrs r !! "data-pid") as [id|]; [|done].
  destruct (row_link r) as [link|]; [|done].
  destruct (link !! "href") as [href|]; [|done].
  destruct (row_meta r) as [meta_text|]; [|done].
  intros [= <-]. simpl.
  destruct (fetch_content E _) as [soup|].
  - unfold mbind, M_bind, bind, mret, M_ret, ret.
    pose proof (geotag_result_frame E soup
                  (summary id (row_attrs r !! "data-repost-of") (row_attrs r !! "title")
                     (urljoin E (url E) href) (row_priceinfo r)
                     (List.last (PyStr.split middle_dot meta_text) EmptyString) (row_dots r)))
      as Hframe.
    pose proof (geotag_result_dom E soup
                  (summary id (row_attrs r !! "data-repost-of") (row_attrs r !! "title")
                     (urljoin E (url E) href) (row_priceinfo r)
                     (List.last (PyStr.split middle_dot meta_text) EmptyString) (row_dots r)))
      as Hdom.
    destruct (geotag_result E soup _) as [[[]|e] st']; [|done].
    intros [= _ <-]. simpl in *. split.
    + rewrite Hdom; [apply summary_dom|]. rewrite summary_geotag. by eexists.
    + done.
  - intros [= _ <-]. split; [apply summary_dom|done].
Qed.

Lemma process_row_geotag_only_witness :
  dom (<["geotag" := VGeotag 40 (-74)]> (Examples.listing_record "1")) = summary_keys.
Proof.
  apply (process_row_geotag_only
           (Examples.env (λ _, None) (λ _, Some Examples.full_map_page) Examples.no_reveal)
           (Examples.listing_row "1")
           [EvFetchContent "https://newyork.craigslist.org/bik/1.html"]
           (Examples.listing_record "1")); reflexivity.
Defined.

Lemma parse_attrs_capital_marker_witness :
  ∃ st', parse_attrs MoreExamples.shouting
           (<["attrs" := VStrs ["Cryptocurrency OK"]]> Examples.a_summary) = (Ok tt, st') ∧
         st' !! "crypto" = None.
Proof.
  destruct (parse_attrs_capital_marker MoreExamples.shouting
              (<["attrs" := VStrs ["Cryptocurrency OK"]]> Examples.a_summary)
              ["Cryptocurrency OK"]) as (st' & Hrun & Hframe); [reflexivity|reflexivity| |].
  - intros key options Hin _. simpl in Hin.
    apply list_elem_of_singleton in Hin as [= -> ->]. by eexists.
  - exists st'. split; [exact Hrun|]. rewrite Hframe; [reflexivity|].
    simpl. intros H.
    repeat (apply elem_of_cons in H as [H|H]; [discriminate|]).
    by apply elem_of_nil in H.
Defined.

(** ** The browser session *)

Section BrowserProofs.
Context {H T : Type} (B : @browser_env H T).

Lemma get_driver_cases st :
  (∃ h, DRIVER st = Some h ∧ get_driver B st = (Ok (Some h), st, [])) ∨
  (DRIVER st = None ∧
   ((∃ h, chrome B = Some h ∧
          get_driver B st = (Ok (Some h),
                             {| DRIVER := Some h; last_called := last_called st;
                                waiting := waiting st |}, [Launch])) ∨
    (chrome B = None ∧ get_driver B st = (Raise WebDriverException, st, [Launch])))).
Proof.
  unfold get_driver, set_driver.
  destruct (DRIVER st) as [h|] eqn:Hd.
  - left. by exists h.
  - right. split; [done|]. destruct (chrome B) as [h|].
    + left. by exists h.
    + by right.
Qed.

End BrowserProofs.

Lemma quit_leaves_none {H T : Type} (B : @browser_env H T) (st st' : browser)
    (evs : list browser_event) :
  quit B st = (Ok tt, st', evs) → DRIVER st' = None.
Proof.
  unfold quit. destruct (DRIVER st) as [h|] eqn:Hd.
  - destruct (driver_quit B h); [|done]. by intros [= <- <-].
  - by intros [= <- <-].
Qed.

(** X20.  A [quit] that returns leaves no driver, touches neither the
    idle clock nor the waiting flag, and makes any further [quit] a no-op
    that calls nothing. *)
Theorem quit_idempotent {H T : Type} (B : @browser_env H T) (st st' : browser)
    (evs : list browser_event) :
  quit B st = (Ok tt, st', evs) →
  DRIVER st' = None ∧ last_called st' = last_called st ∧ waiting st' = waiting st ∧
  quit B st' = (Ok tt, st', []).
Proof.
  unfold quit. destruct (DRIVER st) as [h|] eqn:Hd.
  - destruct (driver_quit B h); [|done]. by intros [= <- <-].
  - intros [= <- <-]. by rewrite Hd.
Qed.

Lemma quit_idempotent_witness :
  quit MoreExamples.working_browser
       {| DRIVER := None; last_called := 0; waiting := false |}
    = (Ok tt, {| DRIVER := None; last_called := 0; waiting := false |}, []).
Proof.
  apply (quit_idempotent MoreExamples.working_browser MoreExamples.live_session
           {| DRIVER := None; last_called := 0; waiting := false |} [QuitDriver 7%nat]).
  reflexivity.
Defined.

(** X21.  [get_driver] launches a browser at most once: a call that
    returns hands out a driver that is then the class's driver, it
    launches only when there was none, and a second call returns the same
    driver without launching. *)
Theorem get_driver_singleton {H T : Type} (B : @browser_env H T) (st st' : browser)
    (d : option H) (evs : list browser_event) :
  get_driver B st = (Ok d, st', evs) →
  ∃ h, d = Some h ∧ DRIVER st' = Some h ∧
       evs = match DRIVER st with Some _ => [] | None => [Launch] end ∧
       get_driver B st' = (Ok (Some h), st', []).
Proof.
  destruct (get_driver_cases B st)
    as [(h & Hd & ->)|(Hd & [(h & Hc & ->)|(Hc & ->)])]; [| |done].
  - intros [= <- <- <-]. exists h. rewrite Hd. repeat split; try done.
    unfold get_driver. by rewrite Hd.
  - intros [= <- <- <-]. exists h. rewrite Hd. by repeat split.
Qed.

Lemma get_driver_singleton_witness :
  ∃ h, Some 7%nat = Some h ∧
       DRIVER {| DRIVER := Some 7%nat; last_called := 0; waiting := false |} = Some h ∧
       [@Launch nat] = [Launch] ∧
       get_driver MoreExamples.working_browser
                  {| DRIVER := Some 7%nat; last_called := 0; waiting := false |}
         = (Ok (Some h), {| DRIVER := Some 7%nat; last_called := 0; waiting := false |}, []).
Proof.
  apply (get_driver_singleton MoreExamples.working_browser MoreExamples.fresh_session
           {| DRIVER := Some 7%nat; last_called := 0; waiting := false |}
           (Some 7%nat) [Launch]).
  reflexivity.
Defined.

(** X22.  The idle check that returns always starts the next timer.  It
    leaves the session alone while a wait is outstanding or the session
    was used in the last five seconds, and otherwise leaves no driver. *)
Theorem check_activity_returns {H T : Type} (B : @browser_env H T) (now : T)
    (st st' : browser) (evs : list browser_event) :
  check_activity B now st = (Ok tt, st', evs) →
  (∃ evs0, evs = evs0 ++ [TimerStart]) ∧
  (waiting st = true ∨ idle B now (last_called st) = false →
     st' = st ∧ evs = [TimerStart]) ∧
  (waiting st = false → idle B now (last_called st) = true → DRIVER st' = None).
Proof.
  unfold check_activity.
  destruct (idle B now (last_called st)) eqn:Hidle, (waiting st) eqn:Hw; simpl.
  - intros [= <- <-]. split; [by exists []|]. by split.
  - destruct (quit B st) as [[[[]|e] st1] evs1] eqn:Hquit; [|done].
    intros [= <- <-]. split; [by exists evs1|]. split.
    + by intros [|].
    + intros _ _. by apply (quit_leaves_none B st st1 evs1).
  - intros [= <- <-]. split; [by exists []|]. by split.
  - intros [= <- <-]. split; [by exists []|]. by split.
Qed.

Lemma check_activity_returns_witness :
  DRIVER {| DRIVER := @None nat; last_called := 0; waiting := false |} = None.
Proof.
  destruct (check_activity_returns MoreExamples.working_browser 9 MoreExamples.live_session
              {| DRIVER := None; last_called := 0; waiting := false |}
              [QuitDriver 7%nat; TimerStart] eq_refl) as (_ & _ & Hquit).
  apply Hquit; reflexivity.
Defined.

(** X23.  The idle check is not robust against a failing [quit]: when the
    session is idle, no wait is outstanding and [DRIVER.quit()] raises,
    the check raises too, keeps the driver and starts no further timer. *)
Theorem check_activity_quit_fails {H T : Type} (B : @browser_env H T) (now : T)
    (st : browser) (h : H) :
  DRIVER st = Some h → driver_quit B h = false →
  waiting st = false → idle B now (last_called st) = true →
  check_activity B now st = (Raise WebDriverException, st, [QuitDriver h]).
Proof.
  intros Hd Hq Hw Hidle. unfold check_activity, quit. by rewrite Hidle, Hw, Hd, Hq.
Qed.

Lemma check_activity_quit_fails_witness :
  check_activity MoreExamples.stubborn_browser 9 MoreExamples.live_session
    = (Raise WebDriverException, MoreExamples.live_session, [QuitDriver 7%nat]).
Proof.
  apply check_activity_quit_fails; reflexivity.
Defined.

(** X24.  [get_driver] does not refresh the idle clock: when the session
    counted as idle before the call, the idle check that follows quits
    the very driver that was just handed out. *)
Theorem get_driver_does_not_postpone {H T : Type} (B : @browser_env H T) (now : T)
    (st st' : browser) (h : H) (evs : list browser_event) :
  get_driver B st = (Ok (Some h), st', evs) →
  waiting st = false → idle B now (last_called st) = true →
  driver_quit B h = true →
  check_activity B now st'
    = (Ok tt, {| DRIVER := None; last_called := last_called st; waiting := false |},
       [QuitDriver h; TimerStart]).
Proof.
  intros Hget Hw Hidle Hq.
  destruct (get_driver_cases B st)
    as [(h' & Hd & Hrun)|(Hd & [(h' & Hc & Hrun)|(Hc & Hrun)])];
    rewrite Hrun in Hget; try done.
  - injection Hget as <- <- <-. unfold check_activity, quit.
    by rewrite Hidle, Hw, Hd, Hq.
  - injection Hget as <- <- <-. unfold check_activity, quit. simpl.
    by rewrite Hidle, Hw, Hq.
Qed.

Lemma get_driver_does_not_postpone_witness :
  check_activity MoreExamples.working_browser 9
                 {| DRIVER := Some 7%nat; last_called := 0; waiting := false |}
    = (Ok tt, {| DRIVER := None; last_called := 0; waiting := false |},
       [QuitDriver 7%nat; TimerStart]).
Proof.
  apply (get_driver_does_not_postpone MoreExamples.working_browser 9
           MoreExamples.fresh_session
           {| DRIVER := Some 7%nat; last_called := 0; waiting := false |} 7%nat [Launch]);
    reflexivity.
Defined.

(** X25.  A [visit] that returns has a driver and has reset the idle
    clock to the time of the visit, so that an idle check finding the
    session not yet idle since then leaves it untouched. *)
Theorem visit_keeps_alive {H T : Type} (B : @browser_env H T) (now now' : T)
    (url_ : string) (st st' : browser) (evs : list browser_event) :
  visit B now url_ st = (Ok tt, st', evs) →
  idle B now' now = false →
  is_Some (DRIVER st') ∧ last_called st' = now ∧ waiting st' = waiting st ∧
  check_activity B now' st' = (Ok tt, st', [TimerStart]).
Proof.
  unfold visit, set_driver. simpl.
  destruct (DRIVER st) as [h|] eqn:Hd; simpl.
  - destruct (driver_get B h url_); [|done].
    intros [= <- <-] Hidle. simpl. repeat split; [by eexists|].
    unfold check_activity. simpl. by rewrite Hidle.
  - destruct (chrome B) as [h|]; simpl; [|done].
    destruct (driver_get B h url_); [|done].
    intros [= <- <-] Hidle. simpl. repeat split; [by eexists|].
    unfold check_activity. simpl. by rewrite Hidle.
Qed.

Lemma visit_keeps_alive_witness :
  check_activity MoreExamples.working_browser 12
                 {| DRIVER := Some 7%nat; last_called := 10; waiting := false |}
    = (Ok tt, {| DRIVER := Some 7%nat; last_called := 10; waiting := false |}, [TimerStart]).
Proof.
  destruct (visit_keeps_alive MoreExamples.working_browser 10 12 "https://x.example.org/"
              MoreExamples.fresh_session
              {| DRIVER := Some 7%nat; last_called := 10; waiting := false |}
              [Launch; Navigate 7%nat "https://x.example.org/"] eq_refl eq_refl)
    as (_ & _ & _ & Hcheck).
  exact Hcheck.
Defined.

(** X26.  Whenever [show_source] returns, with the page source or with
    nothing after a failed wait, the waiting flag is down again and the
    driver and the idle clock are as before. *)
Theorem show_source_clears_waiting {H T : Type} (B : @browser_env H T) (wait : bool)
    (st st' : browser) (data : option string) (evs : list browser_event) :
  show_source B wait st = (Ok data, st', evs) →
  waiting st' = false ∧ DRIVER st' = DRIVER st ∧ last_called st' = last_called st.
Proof.
  unfold show_source. destruct wait; simpl.
  - destruct (DRIVER st) as [h|]; simpl.
    + destruct (wait_until B h); [|by intros [= <- <- <-]].
      destruct (execute_script B h); [|done]. by intros [= <- <- <-].
    + by intros [= <- <- <-].
  - destruct (DRIVER st) as [h|]; simpl; [|done].
    destruct (execute_script B h); [|done]. by intros [= <- <- <-].
Qed.

Lemma show_source_clears_waiting_witness :
  waiting {| DRIVER := Some 7%nat; last_called := 0%Z; waiting := false |} = false.
Proof.
  destruct (show_source_clears_waiting MoreExamples.working_browser true
              MoreExamples.live_session
              {| DRIVER := Some 7%nat; last_called := 0; waiting := false |}
              (Some "<html></html>") [Wait 7%nat; Script 7%nat] eq_refl) as (Hw & _).
  exact Hw.
Defined.

(** X27.  When the wait succeeds but reading the page source raises,
    [show_source] leaves the waiting flag up, and from then on the idle
    check never quits the driver, however long the session stays idle. *)
Theorem show_source_stuck_waiting {H T : Type} (B : @browser_env H T) (now : T)
    (st : browser) (h : H) :
  DRIVER st = Some h → wait_until B h = true → execute_script B h = None →
  ∃ st', show_source B true st = (Raise WebDriverException, st', [Wait h; Script h]) ∧
         waiting st' = true ∧
         check_activity B now st' = (Ok tt, st', [TimerStart]).
Proof.
  intros Hd Hwait Hscript. unfold show_source. simpl. rewrite Hd. simpl.
  rewrite Hwait, Hscript. eexists. split; [done|]. split; [done|].
  unfold check_activity. simpl. by rewrite andb_false_r.
Qed.

Lemma show_source_stuck_waiting_witness :
  ∃ st', show_source MoreExamples.stubborn_browser true MoreExamples.live_session
           = (Raise WebDriverException, st', [Wait 7%nat; Script 7%nat]) ∧
         waiting st' = true ∧
         check_activity MoreExamples.stubborn_browser 99 st' = (Ok tt, st', [TimerStart]).
Proof.
  apply show_source_stuck_waiting; reflexivity.
Defined.

(** ** The list-filter cache and the caller's bookkeeping *)

(** X28.  Once a call has returned the tables of a URL, they are cached:
    a further call for that URL returns the same tables without fetching,
    and the entries of the other URLs were not touched.  A fetch that
    returns nothing is cached as nothing, so the next call fetches
    again. *)
Theorem get_list_filters_cached {Tbl : Type} (fetch : string → option Tbl)
    (cache cache' : gmap string (option Tbl)) (url_ : string) (tables : Tbl)
    (fetched : list string) :
  get_list_filters fetch cache url_ = (Some tables, cache', fetched) →
  get_list_filters fetch cache' url_ = (Some tables, cache', []) ∧
  (∀ other, other ≠ url_ → cache' !! other = cache !! other) ∧
  (∀ cache0, fetch url_ = None → cache0 !! url_ = None →
     get_list_filters fetch (get_list_filters fetch cache0 url_).1.2 url_
       = (None, <[url_ := None]> cache0, [url_])).
Proof.
  unfold get_list_filters. intros Hcall. split; [|split].
  - destruct (cache !! url_) as [[t|]|] eqn:Hc.
    + injection Hcall as <- <- <-. by rewrite Hc.
    + injection Hcall as Hf <- <-. by rewrite lookup_insert_eq, Hf.
    + injection Hcall as Hf <- <-. by rewrite lookup_insert_eq, Hf.
  - intros other Hne. destruct (cache !! url_) as [[t|]|].
    + by injection Hcall as <- <- <-.
    + injection Hcall as Hf <- <-. by rewrite lookup_insert_ne.
    + injection Hcall as Hf <- <-. by rewrite lookup_insert_ne.
  - intros cache0 Hnone Hfresh. rewrite Hfresh, Hnone. simpl.
    by rewrite lookup_insert_eq, insert_insert_eq.
Qed.

Lemma get_list_filters_cached_witness :
  get_list_filters (λ _, Some 1%nat) {["u" := Some 1%nat]} "u"
    = (Some 1%nat, {["u" := Some 1%nat]}, []).
Proof.
  destruct (get_list_filters_cached (λ _, Some 1%nat) ∅ {["u" := Some 1%nat]} "u" 1%nat ["u"])
    as (Hhit & _); [reflexivity|].
  exact Hhit.
Defined.

Section CallerProofs.
Context {L : Type} (listing_id : L → string).

Lemma filter_listings_go_eq sent_listings listings : ∀ filtered_listings,
  filter_listings_go listing_id sent_listings listings filtered_listings
    = filtered_listings ++ filter (λ l, listing_id l ∉ sent_listings) listings.
Proof.
  induction listings as [|l rest IH]; intros acc; simpl.
  - by rewrite app_nil_r.
  - rewrite filter_cons. destruct (decide (listing_id l ∈ sent_listings)) as [Hin|Hout].
    + rewrite IH. by rewrite decide_False by (intros Hn; by apply Hn).
    + rewrite IH, decide_True by done. by rewrite <- app_assoc.
Qed.

Lemma mark_sent_eq listings : ∀ sent_listings,
  mark_sent listing_id sent_listings listings
    = sent_listings ∪ list_to_set (listing_id <$> listings).
Proof.
  induction listings as [|l rest IH]; intros sent.
  - simpl. by rewrite (right_id_L ∅ (∪)).
  - simpl mark_sent. rewrite IH, fmap_cons, list_to_set_cons.
    by rewrite (comm_L (∪) {[listing_id l]} sent), <- (assoc_L (∪)).
Qed.

End CallerProofs.

(** X29.  [filter_listings] returns, in their original order, exactly the
    listings whose identifier has not been sent. *)
Theorem filter_listings_unsent {L : Type} (listing_id : L → string)
    (sent_listings : gset string) (listings : list L) :
  filter_listings listing_id sent_listings listings `sublist_of` listings ∧
  ∀ l, l ∈ filter_listings listing_id sent_listings listings ↔
       l ∈ listings ∧ listing_id l ∉ sent_listings.
Proof.
  unfold filter_listings. rewrite filter_listings_go_eq. simpl. split.
  - apply sublist_filter.
  - intros l. rewrite list_elem_of_filter. tauto.
Qed.

Lemma filter_listings_unsent_witness :
  {| MoreExamples.listing_ident := "7003"; MoreExamples.listing_name := "desk" |}
    ∈ filter_listings MoreExamples.listing_ident {["7001"]} MoreExamples.some_listings.
Proof.
  destruct (filter_listings_unsent MoreExamples.listing_ident {["7001"]}
              MoreExamples.some_listings) as [_ Hiff].
  apply Hiff. split.
  - unfold MoreExamples.some_listings. do 2 right. left.
  - simpl. intros Hin. apply elem_of_singleton in Hin. discriminate.
Defined.

(** X30.  [mark_sent] only adds to the set of sent identifiers, and once
    a batch is marked, filtering that batch again returns nothing. *)
Theorem mark_sent_filters_out {L : Type} (listing_id : L → string)
    (sent_listings : gset string) (listings : list L) :
  sent_listings ⊆ mark_sent listing_id sent_listings listings ∧
  filter_listings listing_id (mark_sent listing_id sent_listings listings) listings = [].
Proof.
  rewrite mark_sent_eq. split; [set_solver|].
  unfold filter_listings. rewrite filter_listings_go_eq. simpl.
  apply elem_of_nil_inv. intros l [Hout Hin]%list_elem_of_filter.
  apply Hout, elem_of_union. right.
  apply elem_of_list_to_set, list_elem_of_fmap. by exists l.
Qed.

Lemma mark_sent_filters_out_witness :
  filter_listings MoreExamples.listing_ident
    (mark_sent MoreExamples.listing_ident ∅ MoreExamples.some_listings)
    MoreExamples.some_listings = [].
Proof.
  destruct (mark_sent_filters_out MoreExamples.listing_ident ∅ MoreExamples.some_listings)
    as [_ Hnone].
  exact Hnone.
Defined.
